(** * Gate-System memory report: a model of [reports/generate_report_gate_system.py]

    The script loads a CSV of heap measurements into a pandas frame and derives
    a handful of tables from it.  This development embeds the data-handling
    part of the script:

    - the frame [df] is a list of rows in file order; the integer columns are
      [int64] values carried as [Z], and [int64] subtraction wraps.  A log
      with a value outside the [int64] range is read with another column
      type and is outside this model: the properties that depend on the
      values assume byte counts;
    - [Series.str.contains(pat)] is a regular-expression search, modelled by a
      backtracking matcher over the pattern's syntax tree;
    - true division and [mean] produce [float64]; they are modelled by the
      binary64 operations of the standard library's [SpecFloat].  Division of
      two columns yields an infinity or NaN on a zero divisor; division of
      two Python floats raises [ZeroDivisionError].  The order in which numpy
      adds up a column is not fixed by the script: the properties of a mean
      are stated for columns whose sum is exact, where the order is
      immaterial;
    - [.iloc[0]] on an empty selection raises [IndexError], and the [DataFrame]
      constructor raises [ValueError] on columns of different lengths;
    - the script itself is a computation that logs the files it writes and
      stops with the first exception.  It has no [try]: line 73 assigns the
      two-column result of [str.extract] to a single column, which pandas
      refuses with [ValueError], so a run ends there at the latest.  The
      later steps are modelled one by one, as the values they compute from
      the frame.

    Outside the model: what matplotlib draws.  The plotting calls before
    line 73 are parameters of the run: each either returns or raises. *)

From Stdlib Require Import ZArith List Bool Ascii String DecimalString DecimalNat
  FinFun Permutation Lia.
From Stdlib Require Import Floats.SpecFloat.
Import ListNotations.

Local Open Scope string_scope.
Local Open Scope Z_scope.

Set Implicit Arguments.

(* ================================================================== *)
(** * Exceptions *)

Inductive exn :=
| IndexError
| ValueError
| ZeroDivisionError
| OtherError.   (* whatever else a library call may raise *)

Inductive result (A : Type) :=
| OK (a : A)
| Raise (e : exn).

Arguments OK {A} a.
Arguments Raise {A} e.

Definition rbind {A B} (r : result A) (f : A -> result B) : result B :=
  match r with
  | OK a => f a
  | Raise e => Raise e
  end.

Notation "'let?' x ':=' r 'in' k" := (rbind r (fun x => k))
  (at level 10, x name, r at level 100, k at level 200).

(** [s.iloc[0]]: the first element by position, [IndexError] when there is none. *)
Definition iloc0 {A} (s : list A) : result A :=
  match s with
  | x :: _ => OK x
  | [] => Raise IndexError
  end.

(* ================================================================== *)
(** * Strings and the patterns of [str.contains] *)

Module Regex.

(** The fragment of Python's [re] syntax the script uses: literals,
    alternation [|] and concatenation; groups only delimit. *)
Inductive regex :=
| Lit (s : string)
| Alt (r1 r2 : regex)
| Seq (r1 r2 : regex).

(** [strip_prefix p s] removes the literal [p] from the front of [s]. *)
Fixpoint strip_prefix (p s : string) : option string :=
  match p with
  | EmptyString => Some s
  | String a p' =>
      match s with
      | String b s' => if Ascii.eqb a b then strip_prefix p' s' else None
      | EmptyString => None
      end
  end.

(** All the ways [r] matches at the start of [s], as the remaining inputs,
    in backtracking order. *)
Fixpoint match_here (r : regex) (s : string) : list string :=
  match r with
  | Lit l => match strip_prefix l s with Some t => [t] | None => [] end
  | Alt r1 r2 => (match_here r1 s ++ match_here r2 s)%list
  | Seq r1 r2 => flat_map (match_here r2) (match_here r1 s)
  end.

Definition matches_at (r : regex) (s : string) : bool :=
  match match_here r s with [] => false | _ :: _ => true end.

(** [re.search]: try every start position, left to right. *)
Fixpoint search (r : regex) (s : string) : bool :=
  matches_at r s ||
  match s with
  | EmptyString => false
  | String _ s' => search r s'
  end.

(** The words of a pattern. *)
Fixpoint lang (r : regex) (w : string) : Prop :=
  match r with
  | Lit l => w = l
  | Alt r1 r2 => lang r1 w \/ lang r2 w
  | Seq r1 r2 => exists u v, w = u ++ v /\ lang r1 u /\ lang r2 v
  end.

(** [sub] occurs somewhere in [s]. *)
Definition substring_of (sub s : string) : Prop :=
  exists pre post, s = pre ++ sub ++ post.

End Regex.

Import Regex.

(** [Series.str.contains(pat)] with the default [regex=True]. *)
Definition str_contains (pat : regex) (s : string) : bool := search pat s.

(** ['Before|After (WiFi|MQTT|Servo) init'] (line 17): [|] binds weakest, so
    the first alternative is the bare word. *)
Definition pat_init : regex :=
  Alt (Lit "Before")
      (Seq (Lit "After ")
           (Seq (Alt (Lit "WiFi") (Alt (Lit "MQTT") (Lit "Servo")))
                (Lit " init"))).

(** ['(Before|After) open entry gate|(Before|After) close entry gate'] (line 18). *)
Definition pat_gate : regex :=
  Alt (Seq (Alt (Lit "Before") (Lit "After")) (Lit " open entry gate"))
      (Seq (Alt (Lit "Before") (Lit "After")) (Lit " close entry gate")).

Definition pat_before : regex := Lit "Before".
Definition pat_after : regex := Lit "After".

(** ['Before|After'] (line 72) *)
Definition pat_before_or_after : regex := Alt (Lit "Before") (Lit "After").

(* ================================================================== *)
(** * The input frame *)

Record row := mkRow {
  timestamp : Z;
  event : string;
  free_heap : Z;
  total_allocated_bytes : Z;
  largest_free_block : Z;
  min_free_heap : Z
}.

Definition table := list row.

(** ** [int64] columns *)

Definition int64_min : Z := - 2 ^ 63.
Definition int64_max : Z := 2 ^ 63 - 1.

Definition in_int64 (z : Z) : Prop := int64_min <= z <= int64_max.

Definition wrap64 (z : Z) : Z := (z + 2 ^ 63) mod 2 ^ 64 - 2 ^ 63.

(** Subtraction of two [int64] columns, element by element: numpy wraps
    around on overflow.  The operands are [int64] values; byte counts are. *)
Definition sub64 (a b : Z) : Z := wrap64 (a - b).

(** A byte count read from the log: a non-negative [int64]. *)
Definition byte_count (z : Z) : Prop := 0 <= z <= int64_max.

Definition valid_row (r : row) : Prop :=
  byte_count (free_heap r) /\ byte_count (total_allocated_bytes r) /\
  byte_count (largest_free_block r) /\ byte_count (min_free_heap r).

Definition valid_table (df : table) : Prop := Forall valid_row df.

(** ** Row selections (lines 17-22) *)

Definition select (pat : regex) (df : table) : table :=
  filter (fun r => str_contains pat (event r)) df.

Definition init_data (df : table) : table := select pat_init df.
Definition gate_ops (df : table) : table := select pat_gate df.

Definition gate_ops_before (df : table) : table := select pat_before (gate_ops df).
Definition gate_ops_after (df : table) : table := select pat_after (gate_ops df).

(** Line 72: the rows that step 2 pivots. *)
Definition init_events (df : table) : table := select pat_before_or_after df.

(** [df[df['event'] == label]] *)
Definition with_event (label : string) (df : table) : table :=
  filter (fun r => String.eqb (event r) label) df.

(* ================================================================== *)
(** * Gate operations (lines 25-39) *)

Record gate_op := mkGateOp {
  operation_number : Z;
  free_heap_before : Z;
  free_heap_after : Z;
  allocated_before : Z;
  allocated_after : Z;
  memory_used : Z;
  allocation_increase : Z
}.

Definition min_ops (df : table) : nat :=
  Nat.min (List.length (gate_ops_before df)) (List.length (gate_ops_after df)).

(** [range(1, n + 1)] *)
Definition range1 (n : nat) : list Z := map Z.of_nat (seq 1 n).

(** The five-column [pd.DataFrame({...})] of line 30, row by row once the
    columns are known to have one length. *)
Fixpoint zip5 (c1 c2 c3 c4 c5 : list Z) : list (Z * Z * Z * Z * Z) :=
  match c1, c2, c3, c4, c5 with
  | x1 :: t1, x2 :: t2, x3 :: t3, x4 :: t4, x5 :: t5 =>
      (x1, x2, x3, x4, x5) :: zip5 t1 t2 t3 t4 t5
  | _, _, _, _, _ => []
  end.

Definition same_length (n : nat) (ls : list (list Z)) : bool :=
  forallb (fun l => Nat.eqb (List.length l) n) ls.

Definition frame5 (c1 c2 c3 c4 c5 : list Z) : result (list (Z * Z * Z * Z * Z)) :=
  if same_length (List.length c1) [c2; c3; c4; c5]
  then OK (zip5 c1 c2 c3 c4 c5)
  else Raise ValueError.

(** Lines 38-39: the two difference columns. *)
Definition with_deltas (x : Z * Z * Z * Z * Z) : gate_op :=
  let '(n, fb, fa, ab, aa) := x in
  mkGateOp n fb fa ab aa (sub64 fb fa) (sub64 aa ab).

Definition gate_ops_memory (df : table) : result (list gate_op) :=
  let n := min_ops df in
  let before := firstn n (gate_ops_before df) in
  let after := firstn n (gate_ops_after df) in
  let? f := frame5 (range1 n)
                   (map free_heap before) (map free_heap after)
                   (map total_allocated_bytes before)
                   (map total_allocated_bytes after) in
  OK (map with_deltas f).

(* ================================================================== *)
(** * [float64] arithmetic *)

Module F64.

Definition prec : Z := 53.
Definition emax : Z := 1024.

(** A [float64] value: IEEE 754 binary64, one NaN. *)
Definition float64 := spec_float.

Definition fadd : float64 -> float64 -> float64 := SFadd prec emax.
Definition fsub : float64 -> float64 -> float64 := SFsub prec emax.
Definition fmul : float64 -> float64 -> float64 := SFmul prec emax.
Definition fdiv : float64 -> float64 -> float64 := SFdiv prec emax.

(** Python's [==] and [<=] on floats. *)
Definition feqb : float64 -> float64 -> bool := SFeqb.
Definition fleb : float64 -> float64 -> bool := SFleb.

(** The conversion of an integer operand, round to nearest even. *)
Definition of_int64 (z : Z) : float64 := binary_normalize prec emax z 0 false.

Definition nan : float64 := S754_nan.

(** Neither an infinity nor NaN. *)
Definition is_finite (f : float64) : bool :=
  match f with
  | S754_zero _ | S754_finite _ _ _ => true
  | S754_infinity _ | S754_nan => false
  end.

(** Accumulation from the left, starting at [0.0].  numpy adds a column of
    eight or more values with several partial sums; the orders give the same
    sum whenever no partial sum is rounded, as for byte counts that add up to
    less than [2^53], and differ otherwise. *)
Definition fsum (xs : list float64) : float64 :=
  fold_left fadd xs (S754_zero false).

(** The sum over the count: NaN on an empty column.  This is [Series.mean()]
    on a column without NaN, as every integer column is. *)
Definition fmean (xs : list float64) : float64 :=
  match xs with
  | [] => nan
  | _ :: _ => fdiv (fsum xs) (of_int64 (Z.of_nat (List.length xs)))
  end.

(** The mean of an [int64] column is taken in [float64]. *)
Definition mean (xs : list Z) : float64 := fmean (map of_int64 xs).

End F64.

Import F64.

(** Lines 153 and 260: [(1 - largest_free_block / free_heap) * 100] on two
    columns. *)
Definition fragmentation (largest free : float64) : float64 :=
  fmul (fsub (of_int64 1) (fdiv largest free)) (of_int64 100).

Definition fragmentation_percent (r : row) : float64 :=
  fragmentation (of_int64 (largest_free_block r)) (of_int64 (free_heap r)).

(* ================================================================== *)
(** * Initialization summary (lines 197-214) *)

Record init_row := mkInitRow {
  operation : string;
  before_bytes : Z;
  after_bytes : Z;
  delta_bytes : Z;
  pct_of_initial : float64
}.

(** Line 214: [(delta / before0) * 100]. *)
Definition pct_of (d b0 : Z) : float64 :=
  fmul (fdiv (of_int64 d) (of_int64 b0)) (of_int64 100).

(** [df[df['event'] == label]['free_heap'].iloc[0]] *)
Definition first_free_heap (label : string) (df : table) : result Z :=
  iloc0 (map free_heap (with_event label df)).

Fixpoint init_rows (ops : list string) (before after delta : list Z)
    (pct : list float64) : list init_row :=
  match ops, before, after, delta, pct with
  | o :: ops', b :: before', a :: after', d :: delta', p :: pct' =>
      mkInitRow o b a d p :: init_rows ops' before' after' delta' pct'
  | _, _, _, _, _ => []
  end.

Fixpoint map2 {A B C} (f : A -> B -> C) (l1 : list A) (l2 : list B) : list C :=
  match l1, l2 with
  | x :: t1, y :: t2 => f x y :: map2 f t1 t2
  | _, _ => []
  end.

Definition init_summary (df : table) : result (list init_row) :=
  let? b1 := first_free_heap "Before WiFi init" df in
  let? b2 := first_free_heap "Before Servo init" df in
  let? b3 := first_free_heap "Before MQTT init" df in
  let? b4 := first_free_heap "Before WiFi init" df in
  let? a1 := first_free_heap "After WiFi init" df in
  let? a2 := first_free_heap "After Servo init" df in
  let? a3 := first_free_heap "After MQTT init" df in
  let? a4 := first_free_heap "After MQTT init" df in
  let ops := ["WiFi Init"; "Servo Init"; "MQTT Init"; "Total System Init"] in
  let before := [b1; b2; b3; b4] in
  let after := [a1; a2; a3; a4] in
  let delta := map2 sub64 before after in
  let? b0 := iloc0 before in
  let pct := map (fun d => pct_of d b0) delta in
  OK (init_rows ops before after delta pct).

(** The six labels the summary looks up. *)
Definition init_labels : list string :=
  ["Before WiFi init"; "Before Servo init"; "Before MQTT init";
   "After WiFi init"; "After Servo init"; "After MQTT init"].

(** ['label' in df['event'].values] *)
Definition has_event (label : string) (df : table) : bool :=
  existsb (String.eqb label) (map event df).

(* ================================================================== *)
(** * Operation summary (lines 233-240) *)

Record op_row := mkOpRow {
  op_label : string;
  op_free_heap_before : float64;
  op_free_heap_after : float64;
  op_memory_used : float64;
  op_allocated_before : float64;
  op_allocated_after : float64
}.

Definition decimal (n : nat) : string :=
  NilZero.string_of_uint (Nat.to_uint n).

(** One row per gate operation; the integer cells become [float64] in a
    column that also holds the mean. *)
Definition op_row_of (i : nat) (o : gate_op) : op_row :=
  mkOpRow ("Gate Op #" ++ decimal (i + 1))
          (of_int64 (free_heap_before o)) (of_int64 (free_heap_after o))
          (of_int64 (memory_used o))
          (of_int64 (allocated_before o)) (of_int64 (allocated_after o)).

Fixpoint op_rows_from (i : nat) (g : list gate_op) : list op_row :=
  match g with
  | [] => []
  | o :: g' => op_row_of i o :: op_rows_from (S i) g'
  end.

Definition average_row (g : list gate_op) : op_row :=
  mkOpRow "Average"
          (mean (map free_heap_before g)) (mean (map free_heap_after g))
          (mean (map memory_used g))
          (mean (map allocated_before g)) (mean (map allocated_after g)).

Definition operation_summary (g : list gate_op) : list op_row :=
  (op_rows_from 0 g ++ [average_row g])%list.

(* ================================================================== *)
(** * Fragmentation summary (lines 259-284) *)

(** A cell of a row that mixes integers and floats. *)
Inductive num :=
| Int (z : Z)
| Float (f : float64).

Record frag_stage := mkFragStage {
  stage : string;
  stage_free_heap : num;
  stage_largest_free_block : num;
  stage_fragmentation_index : float64
}.

Definition stage_of_row (r : row) : frag_stage :=
  mkFragStage (event r) (Int (free_heap r)) (Int (largest_free_block r))
              (fragmentation_percent r).

(** [if label in events: frag_stages.append(frag_data[...].iloc[0])] *)
Definition stage_if_present (label : string) (df : table) : result (list frag_stage) :=
  if has_event label df
  then let? r := iloc0 (with_event label df) in OK [stage_of_row r]
  else OK [].

(** [a / b] on two Python floats. *)
Definition py_div (a b : float64) : result float64 :=
  match b with
  | S754_zero _ => Raise ZeroDivisionError
  | _ => OK (fdiv a b)
  end.

(** Lines 273-275: the column means of the gate rows, then the index from
    the two means.  Line 274 stores a string in the series of means, which
    turns its values into Python floats: the division of line 275 is
    Python's. *)
Definition gate_ops_avg (df : table) : result frag_stage :=
  let fh := mean (map free_heap (gate_ops df)) in
  let lfb := mean (map largest_free_block (gate_ops df)) in
  let? q := py_div lfb fh in
  OK (mkFragStage "During Operations" (Float fh) (Float lfb)
                  (fmul (fsub (of_int64 1) q) (of_int64 100))).

(** Lines 263-276: the rows collected in [frag_stages]. *)
Definition frag_stages (df : table) : result (list frag_stage) :=
  let? s1 := stage_if_present "Before WiFi init" df in
  let? s2 := stage_if_present "After WiFi init" df in
  let? s3 := stage_if_present "After MQTT init" df in
  let? s4 := if (0 <? List.length (gate_ops df))%nat
             then let? avg := gate_ops_avg df in OK [avg]
             else OK [] in
  OK (s1 ++ s2 ++ s3 ++ s4)%list.

Definition is_float (c : num) : bool :=
  match c with
  | Float _ => true
  | Int _ => false
  end.

Definition to_float (c : num) : float64 :=
  match c with
  | Int z => of_int64 z
  | Float f => f
  end.

(** A column built from a list of numbers is [float64] as soon as one of them
    is a float, and [int64] otherwise. *)
Definition column (cells : list num) : list num :=
  if existsb is_float cells then map (fun c => Float (to_float c)) cells
  else cells.

Fixpoint frag_rows (names : list string) (free largest : list num)
    (index : list float64) : list frag_stage :=
  match names, free, largest, index with
  | n :: names', f :: free', l :: largest', i :: index' =>
      mkFragStage n f l i :: frag_rows names' free' largest' index'
  | _, _, _, _ => []
  end.

(** Lines 279-284: one list per column. *)
Definition frag_frame (stages : list frag_stage) : list frag_stage :=
  frag_rows (map stage stages)
            (column (map stage_free_heap stages))
            (column (map stage_largest_free_block stages))
            (map stage_fragmentation_index stages).

Definition frag_summary (df : table) : result (list frag_stage) :=
  let? stages := frag_stages df in
  OK (frag_frame stages).

(** Following the claim's words, not the script: the mean over the gate rows
    of the per-row index, for rows whose index is a number. *)
Definition mean_of_row_indices (df : table) : float64 :=
  fmean (map fragmentation_percent (gate_ops df)).

(* ================================================================== *)
(** * The script *)

(** What a written file shows. *)
Inductive content :=
| Chart
| PieChart (allocated free : Z).

Record output := mkOutput {
  file : string;
  shows : content
}.

(** A run: the files written so far, and how it went on. *)
Definition script (A : Type) : Type := list output * result A.


Definition bind {A B} (m : script A) (f : A -> script B) : script B :=
  match m with
  | (w, OK a) => let (w', r) := f a in ((w ++ w')%list, r)
  | (w, Raise e) => (w, Raise e)
  end.

Definition lift {A} (r : result A) : script A := ([], r).

Notation "x <- m ;; k" := (bind m (fun x => k))
  (at level 61, m at next level, right associativity).
Notation "m ;;; k" := (bind m (fun _ => k))
  (at level 61, right associativity).

Definition files {A} (m : script A) : list string := map file (fst m).

Definition outcome {A} (m : script A) : result A := snd m.

Definition timeline_file : string := "memory_timeline_gate_system.png".

(** The files the script saves without a condition, in the order of the
    [savefig] and [to_csv] calls (lines 67, 123-299 and 322-324). *)
Definition unconditional_files : list string :=
  [timeline_file;
   "memory_recovery_pattern_gate_system.png";
   "allocated_vs_free_memory_gate_system.png";
   "memory_fragmentation_gate_system.png";
   "gate_operation_memory_delta_gate_system.png";
   "initialization_summary_table_gate_system.png";
   "operation_summary_table_gate_system.png";
   "fragmentation_summary_table_gate_system.png";
   "initialization_summary_gate_system.csv";
   "operation_summary_gate_system.csv";
   "fragmentation_summary_gate_system.csv"].

(** The capture groups of [r'(Before|After)(.+)'] (line 73): [str.extract]
    returns a frame with one column per group. *)
Definition capture_groups : nat := 2.

(** [frame[name] = value] where [value] is a frame of [columns] columns:
    pandas assigns a single column and raises [ValueError] otherwise. *)
Definition assign_column (columns : nat) : result unit :=
  if (columns =? 1)%nat then OK tt else Raise ValueError.

Section Script.

(** Lines 42-58: the timeline figure, its curve and its annotations.  The
    calls return, or one of them raises. *)
Variable plot : table -> result unit.

(** Finishing and saving one figure: it is written, or a call raises. *)
Variable render : output -> result unit.

(** [plt.savefig(name)], with the drawing that leads to it. *)
Definition write (name : string) (c : content) : script unit :=
  match render (mkOutput name c) with
  | OK _ => ([mkOutput name c], OK tt)
  | Raise e => ([], Raise e)
  end.


(** The script from line 17 on.  Line 73 raises for every frame, so the
    statements after it are never executed in a run. *)
Definition run (df : table) : script unit :=
  (* lines 17-39 *)
  _ <- lift (gate_ops_memory df) ;;
  (* 1: lines 42-58 *)
  lift (plot df) ;;;
  (* line 61, then lines 61-68 *)
  _ <- lift (iloc0 (map min_free_heap df)) ;;
  write timeline_file Chart ;;;
  (* 2: lines 72-73 *)
  let events := init_events df in
  lift (assign_column capture_groups).

End Script.

(* ================================================================== *)
(** * Row-wise readings of the frames

    The frames above are built column by column, as in the script.  The
    definitions below give the same tables row by row; the lemmas of the
    second part show that they agree. *)

(** The frame of line 30, written over the two paired row lists. *)
Definition paired (k : nat) (b a : row) : gate_op :=
  with_deltas (Z.of_nat k, free_heap b, free_heap a,
               total_allocated_bytes b, total_allocated_bytes a).

Fixpoint pairs_from (k : nat) (bs as_ : list row) : list gate_op :=
  match bs, as_ with
  | b :: bs', a :: as' => paired k b a :: pairs_from (S k) bs' as'
  | _, _ => []
  end.

(** [r] is the first row of [df] whose event is exactly [label]. *)
Definition first_row (label : string) (df : table) (r : row) : Prop :=
  exists pre post,
    df = (pre ++ r :: post)%list /\ event r = label /\
    forall x, In x pre -> event x <> label.

(** The summary as a function of the six looked-up values. *)
Definition init_table (b1 b2 b3 a1 a2 a3 : Z) : list init_row :=
  [ mkInitRow "WiFi Init" b1 a1 (sub64 b1 a1) (pct_of (sub64 b1 a1) b1);
    mkInitRow "Servo Init" b2 a2 (sub64 b2 a2) (pct_of (sub64 b2 a2) b1);
    mkInitRow "MQTT Init" b3 a3 (sub64 b3 a3) (pct_of (sub64 b3 a3) b1);
    mkInitRow "Total System Init" b1 a3 (sub64 b1 a3) (pct_of (sub64 b1 a3) b1) ].

(** The stage rows of the fragmentation summary that come from single rows
    of the log. *)
Definition stage_rows (label : string) (df : table) : list frag_stage :=
  match with_event label df with
  | r :: _ => [stage_of_row r]
  | [] => []
  end.

Definition init_stages (df : table) : list frag_stage :=
  (stage_rows "Before WiFi init" df ++ stage_rows "After WiFi init" df ++
   stage_rows "After MQTT init" df)%list.

(** A stage row in a frame whose two number columns are [float64]. *)
Definition as_float_stage (st : frag_stage) : frag_stage :=
  mkFragStage (stage st) (Float (to_float (stage_free_heap st)))
              (Float (to_float (stage_largest_free_block st)))
              (stage_fragmentation_index st).

(** The timeline chart, the one file a run can get to write. *)
Definition timeline : output := mkOutput timeline_file Chart.

(** The three labels the fragmentation summary looks for. *)
Definition stage_labels : list string :=
  ["Before WiFi init"; "After WiFi init"; "After MQTT init"].

(** The columns of [gate_ops_memory] that the summary averages, each with
    its cell in a row of the summary (lines 235-239). *)
Definition summary_columns : list ((gate_op -> Z) * (op_row -> float64)) :=
  [ (free_heap_before, op_free_heap_before);
    (free_heap_after, op_free_heap_after);
    (memory_used, op_memory_used);
    (allocated_before, op_allocated_before);
    (allocated_after, op_allocated_after) ].

(* ================================================================== *)
(** * Exact sums *)

(** The exact total of an integer column. *)
Definition total (xs : list Z) : Z := fold_right Z.add 0 xs.

(** The canonical binary64 form of an integer [0 < z < 2^53]. *)
Definition canonical (s : bool) (z : Z) : float64 :=
  S754_finite s (Z.to_pos (z * 2 ^ (53 - Zdigits2 z))) (Zdigits2 z - 53).

(** A way of adding up a column: the order of the terms and the
    bracketing of the additions (numpy adds long columns pairwise). *)
Inductive bracketing :=
| Term (x : Z)
| Plus (l r : bracketing).

Fixpoint terms (t : bracketing) : list Z :=
  match t with
  | Term x => [x]
  | Plus l r => (terms l ++ terms r)%list
  end.

Fixpoint fsum_in (t : bracketing) : float64 :=
  match t with
  | Term x => of_int64 x
  | Plus l r => fadd (fsum_in l) (fsum_in r)
  end.

(** The summary of an empty gate-operation frame. *)
Definition empty_operation_summary : list op_row :=
  [mkOpRow "Average" nan nan nan nan nan].

(** The row of means, from the exact totals of the two columns. *)
Definition during_operations (g : table) : frag_stage :=
  let n := of_int64 (Z.of_nat (List.length g)) in
  let mf := fdiv (of_int64 (total (map free_heap g))) n in
  let ml := fdiv (of_int64 (total (map largest_free_block g))) n in
  mkFragStage "During Operations" (Float mf) (Float ml)
              (fmul (fsub (of_int64 1) (fdiv ml mf)) (of_int64 100)).

(* ================================================================== *)
(** * Notions used in the rounding proofs *)

(** What [p] shifts leave of a mantissa [m0] that starts exact: the
    quotient, the last bit shifted out, and whether anything below it was
    set. *)
Definition shifted (m0 : Z) (p : positive) (mrs : shr_record) : Prop :=
  exists t,
    0 <= t < 2 ^ (Zpos p - 1) /\ 0 <= shr_m mrs /\
    m0 = shr_m mrs * 2 ^ Zpos p + (if shr_r mrs then 2 ^ (Zpos p - 1) else 0) + t /\
    shr_s mrs = negb (t =? 0).

(** A 53-bit mantissa with its leading bit set. *)
Definition normal_mantissa (m : positive) : Prop := 2 ^ 52 <= Zpos m < 2 ^ 53.

(** The mantissas of [1.0] and [100.0]. *)
Definition one_mantissa : positive := 4503599627370496.       (* 2^52 *)
Definition hundred_mantissa : positive := 7036874417766400.   (* 100 * 2^46 *)

(* ================================================================== *)
(** * Sample logs *)

Definition sample (e : string) (free allocated largest : Z) : row :=
  mkRow 0 e free allocated largest 1000.

(** A boot sequence with the six labels and no gate traffic. *)
Definition boot_log : table :=
  [ sample "Before WiFi init" 100000 10000 90000;
    sample "After WiFi init" 95000 15000 80000;
    sample "Before Servo init" 95000 15000 80000;
    sample "After Servo init" 94000 16000 80000;
    sample "Before MQTT init" 94000 16000 80000;
    sample "After MQTT init" 90000 20000 70000 ].

(** Five gate operations started, three finished. *)
Definition gate_log : table :=
  [ sample "Before open entry gate" 100 5 50;
    sample "After open entry gate" 90 7 40;
    sample "Before close entry gate" 300 5 300;
    sample "After close entry gate" 290 7 200;
    sample "Before open entry gate" 300 5 300;
    sample "After open entry gate" 280 9 200;
    sample "Before close entry gate" 280 9 200;
    sample "Before open entry gate" 270 9 200 ].

Definition full_log : table := (boot_log ++ gate_log)%list.

(** A log that stops after MQTT came up, with the earlier labels lost. *)
Definition mqtt_only_log : table :=
  [ sample "After MQTT init" 90000 20000 70000 ].

(** A plotting library in which every call returns normally. *)
Definition plot_draws : table -> result unit := fun _ => OK tt.
Definition render_saves : output -> result unit := fun _ => OK tt.



(** One gate operation: half the heap in one block before, all of it after. *)
Definition one_gate_log : table :=
  [ sample "Before open entry gate" 100 5 50;
    sample "After open entry gate" 300 5 300 ].

(** Gate rows logged with an empty heap. *)
Definition empty_heap_log : table :=
  [ sample "Before open entry gate" 0 5 0;
    sample "After open entry gate" 0 5 0 ].

(** A log row whose free heap is too large for [float64] to tell
    [1 - 1/free_heap] from [1]. *)
Definition huge_heap_row : row := mkRow 0 "After MQTT init" (2 ^ 54) 0 1 0.

(* ================================================================== *)
(* ================================================================== *)
(** * Part two: properties *)

(* ================================================================== *)
(** * Correctness of the pattern search *)

Lemma append_assoc (a b c : string) : (a ++ b) ++ c = a ++ (b ++ c).
Proof. induction a as [|x a IH]; simpl; [reflexivity | now rewrite IH]. Qed.

Lemma strip_prefix_spec (p s t : string) :
  strip_prefix p s = Some t <-> s = p ++ t.
Proof.
  revert s. induction p as [|a p IH]; intros s; simpl.
  - split; intros H; [now inversion H | now subst].
  - destruct s as [|b s].
    + split; intros H; discriminate.
    + destruct (Ascii.eqb_spec a b) as [->|Hab].
      * rewrite IH. split; intros H; [now subst | now inversion H].
      * split; intros H; [discriminate | inversion H; congruence].
Qed.

Lemma match_here_spec (r : regex) (s t : string) :
  In t (match_here r s) <-> exists w, lang r w /\ s = w ++ t.
Proof.
  revert s t. induction r as [l | r1 IH1 r2 IH2 | r1 IH1 r2 IH2]; intros s t; simpl.
  - destruct (strip_prefix l s) as [t'|] eqn:E.
    + apply strip_prefix_spec in E. simpl. split.
      * intros [<-|[]]. now exists l.
      * intros (w & -> & Hs). left. subst s.
        clear -Hs. induction l as [|a l IH]; simpl in Hs; [assumption|].
        inversion Hs. auto.
    + split; [intros [] | intros (w & -> & Hs)].
      apply strip_prefix_spec in Hs. congruence.
  - rewrite in_app_iff, IH1, IH2. split.
    + intros [(w & Hw & E) | (w & Hw & E)]; exists w; auto.
    + intros (w & [Hw | Hw] & E); [left | right]; exists w; auto.
  - rewrite in_flat_map. split.
    + intros (m & Hm & Ht). apply IH1 in Hm. apply IH2 in Ht.
      destruct Hm as (u & Hu & ->). destruct Ht as (v & Hv & ->).
      exists (u ++ v). split; [now exists u, v | now rewrite append_assoc].
    + intros (w & (u & v & -> & Hu & Hv) & ->).
      exists (v ++ t). split; [apply IH1 | apply IH2].
      * exists u. split; [assumption | now rewrite append_assoc].
      * now exists v.
Qed.

Lemma matches_at_spec (r : regex) (s : string) :
  matches_at r s = true <-> exists w post, lang r w /\ s = w ++ post.
Proof.
  unfold matches_at. split.
  - destruct (match_here r s) as [|t l] eqn:E; [discriminate|]. intros _.
    assert (H : In t (match_here r s)) by (rewrite E; now left).
    apply match_here_spec in H. destruct H as (w & Hw & Hs). now exists w, t.
  - intros (w & post & Hw & Hs).
    assert (H : In post (match_here r s)) by (apply match_here_spec; now exists w).
    destruct (match_here r s); [destruct H | reflexivity].
Qed.

(** [search] finds exactly the strings with a word of the pattern inside. *)
Lemma search_spec (r : regex) (s : string) :
  search r s = true <-> exists pre w post, lang r w /\ s = pre ++ w ++ post.
Proof.
  induction s as [|a s IH]; simpl; rewrite orb_true_iff, matches_at_spec.
  - split.
    + intros [(w & post & Hw & E) | H]; [|discriminate]. now exists "", w, post.
    + intros (pre & w & post & Hw & E). left.
      destruct pre; [|discriminate]. now exists w, post.
  - rewrite IH. split.
    + intros [(w & post & Hw & E) | (pre & w & post & Hw & E)].
      * now exists "", w, post.
      * exists (String a pre), w, post. split; [assumption|]. simpl. now rewrite E.
    + intros (pre & w & post & Hw & E). destruct pre as [|b pre].
      * left. now exists w, post.
      * right. simpl in E. inversion E. now exists pre, w, post.
Qed.

Lemma search_lit (l s : string) :
  search (Lit l) s = true <-> substring_of l s.
Proof.
  rewrite search_spec. unfold substring_of. split.
  - intros (pre & w & post & -> & E). now exists pre, post.
  - intros (pre & post & E). now exists pre, l, post.
Qed.

(* ================================================================== *)
(** * Row selections *)

Lemma select_In (pat : regex) (df : table) (r : row) :
  In r (select pat df) <-> In r df /\ str_contains pat (event r) = true.
Proof. unfold select. apply filter_In. Qed.

Lemma lang_pat_init (w : string) :
  lang pat_init w <->
  w = "Before" \/ w = "After WiFi init" \/ w = "After MQTT init" \/
  w = "After Servo init".
Proof.
  unfold pat_init. simpl. split.
  - intros [H | (u & v & -> & -> & u' & v' & -> & H & ->)]; [now left | right].
    destruct H as [-> | [-> | ->]]; simpl; auto.
  - intros [H | H]; [now left | right].
    exists "After ". 
    destruct H as [-> | [-> | ->]];
      [exists "WiFi init" | exists "MQTT init" | exists "Servo init"];
      (split; [reflexivity | split; [reflexivity|]]);
      [exists "WiFi" | exists "MQTT" | exists "Servo"]; exists " init"; auto.
Qed.

Lemma contains_pat_init (s : string) :
  str_contains pat_init s = true <->
  substring_of "Before" s \/ substring_of "After WiFi init" s \/
  substring_of "After MQTT init" s \/ substring_of "After Servo init" s.
Proof.
  unfold str_contains. rewrite search_spec. unfold substring_of. split.
  - intros (pre & w & post & Hw & ->). apply lang_pat_init in Hw.
    destruct Hw as [-> | [-> | [-> | ->]]];
      [left | right; left | right; right; left | right; right; right];
      now exists pre, post.
  - intros [H | [H | [H | H]]]; destruct H as (pre & post & ->);
      eexists pre, _, post; (split; [apply lang_pat_init | reflexivity]); auto.
Qed.

(** C4.  A row belongs to [init_data] exactly when its event contains
    ["Before"] or one of ["After WiFi init"], ["After MQTT init"],
    ["After Servo init"]; so every event that merely contains ["Before"],
    such as ["Before open entry gate"], is classified as an initialization
    row. *)
Theorem init_data_rows (df : table) (r : row) :
  (In r (init_data df) <->
   In r df /\
   (substring_of "Before" (event r) \/ substring_of "After WiFi init" (event r) \/
    substring_of "After MQTT init" (event r) \/
    substring_of "After Servo init" (event r))) /\
  (In r df -> event r = "Before open entry gate" -> In r (init_data df)).
Proof.
  assert (E : In r (init_data df) <->
     In r df /\
     (substring_of "Before" (event r) \/ substring_of "After WiFi init" (event r) \/
      substring_of "After MQTT init" (event r) \/
      substring_of "After Servo init" (event r))).
  { unfold init_data. rewrite select_In, contains_pat_init. reflexivity. }
  split; [exact E|].
  intros Hin Hev. apply E. split; [assumption|]. left.
  rewrite Hev. now exists "", " open entry gate".
Qed.

(* ================================================================== *)
(** * Gate operations *)

Lemma length_range1 (n : nat) : List.length (range1 n) = n.
Proof. unfold range1. now rewrite length_map, length_seq. Qed.

Lemma frame5_same (c1 c2 c3 c4 c5 : list Z) :
  List.length c2 = List.length c1 -> List.length c3 = List.length c1 ->
  List.length c4 = List.length c1 -> List.length c5 = List.length c1 ->
  frame5 c1 c2 c3 c4 c5 = OK (zip5 c1 c2 c3 c4 c5).
Proof.
  intros H2 H3 H4 H5. unfold frame5, same_length. simpl.
  now rewrite H2, H3, H4, H5, Nat.eqb_refl.
Qed.

Lemma zip5_pairs (k : nat) (bs as_ : list row) :
  List.length bs = List.length as_ ->
  map with_deltas
    (zip5 (map Z.of_nat (seq k (List.length bs)))
          (map free_heap bs) (map free_heap as_)
          (map total_allocated_bytes bs) (map total_allocated_bytes as_))
  = pairs_from k bs as_.
Proof.
  revert k as_. induction bs as [|b bs IH]; intros k [|a as_] H; simpl in *;
    try discriminate; try reflexivity.
  f_equal. apply IH. now inversion H.
Qed.

Lemma pairs_from_length (k : nat) (bs as_ : list row) :
  List.length (pairs_from k bs as_) = Nat.min (List.length bs) (List.length as_).
Proof.
  revert k as_. induction bs as [|b bs IH]; intros k [|a as_]; simpl; auto.
Qed.

Lemma pairs_from_nth (k i : nat) (bs as_ : list row) (b a : row) :
  nth_error bs i = Some b -> nth_error as_ i = Some a ->
  nth_error (pairs_from k bs as_) i = Some (paired (k + i) b a).
Proof.
  revert k i as_. induction bs as [|b0 bs IH]; intros k [|i] [|a0 as_] Hb Ha;
    simpl in *; try discriminate.
  - inversion Hb; inversion Ha; subst. now rewrite Nat.add_0_r.
  - rewrite (IH (S k) i as_ Hb Ha). do 2 f_equal. lia.
Qed.

Lemma pairs_from_firstn (k n : nat) (bs as_ : list row) :
  pairs_from k (firstn n bs) (firstn n as_) = firstn n (pairs_from k bs as_).
Proof.
  revert k bs as_. induction n as [|n IH]; intros k [|b bs] [|a as_]; simpl;
    try reflexivity.
  now rewrite IH.
Qed.

(** The frame is always built: the columns have one length by line 25. *)
Lemma gate_ops_memory_eq (df : table) :
  gate_ops_memory df = OK (pairs_from 1 (gate_ops_before df) (gate_ops_after df)).
Proof.
  unfold gate_ops_memory.
  set (n := min_ops df).
  assert (Hb : List.length (firstn n (gate_ops_before df)) = n)
    by (apply firstn_length_le; unfold n, min_ops; lia).
  assert (Ha : List.length (firstn n (gate_ops_after df)) = n)
    by (apply firstn_length_le; unfold n, min_ops; lia).
  rewrite frame5_same by (now rewrite ?length_map, length_range1).
  simpl. f_equal. unfold range1. rewrite <- Hb at 1.
  rewrite zip5_pairs by congruence.
  rewrite pairs_from_firstn. apply firstn_all2.
  rewrite pairs_from_length. unfold n, min_ops. lia.
Qed.

(** C1.  [gate_ops_memory] has [min(B, A)] rows, where [B] and [A] count the
    gate rows containing ["Before"] and ["After"]; its i-th row carries the
    values of the i-th such before-row and the i-th such after-row, both
    taken in file order, and the rows beyond the shorter list are dropped:
    5 before and 3 after give 3 pairs. *)
Theorem gate_ops_memory_pairs (df : table) :
  exists g,
    gate_ops_memory df = OK g /\
    gate_ops_before df =
      filter (fun r => str_contains pat_before (event r))
             (filter (fun r => str_contains pat_gate (event r)) df) /\
    gate_ops_after df =
      filter (fun r => str_contains pat_after (event r))
             (filter (fun r => str_contains pat_gate (event r)) df) /\
    List.length g =
      Nat.min (List.length (gate_ops_before df)) (List.length (gate_ops_after df)) /\
    (forall i, (i < List.length g)%nat ->
       exists o b a,
         nth_error g i = Some o /\
         nth_error (gate_ops_before df) i = Some b /\
         nth_error (gate_ops_after df) i = Some a /\
         operation_number o = Z.of_nat (i + 1) /\
         free_heap_before o = free_heap b /\
         free_heap_after o = free_heap a /\
         allocated_before o = total_allocated_bytes b /\
         allocated_after o = total_allocated_bytes a) /\
    (List.length (gate_ops_before df) = 5%nat ->
     List.length (gate_ops_after df) = 3%nat -> List.length g = 3%nat).
Proof.
  exists (pairs_from 1 (gate_ops_before df) (gate_ops_after df)).
  split; [apply gate_ops_memory_eq|].
  split; [reflexivity|]. split; [reflexivity|].
  split; [apply pairs_from_length|]. split.
  - intros i Hi. rewrite pairs_from_length in Hi.
    destruct (nth_error (gate_ops_before df) i) as [b|] eqn:Eb.
    2:{ apply nth_error_None in Eb. lia. }
    destruct (nth_error (gate_ops_after df) i) as [a|] eqn:Ea.
    2:{ apply nth_error_None in Ea. lia. }
    exists (paired (1 + i) b a), b, a.
    rewrite (@pairs_from_nth 1 i _ _ _ _ Eb Ea).
    repeat split; try reflexivity.
    simpl. f_equal. lia.
  - intros Hb Ha. rewrite pairs_from_length, Hb, Ha. reflexivity.
Qed.

(** ** [int64] differences of byte counts *)

Lemma wrap64_small (z : Z) : in_int64 z -> wrap64 z = z.
Proof.
  unfold in_int64, int64_min, int64_max, wrap64. intros H.
  rewrite Z.mod_small; lia.
Qed.

Lemma sub64_byte_counts (a b : Z) :
  byte_count a -> byte_count b -> sub64 a b = a - b.
Proof.
  unfold byte_count, int64_max, sub64. intros Ha Hb.
  apply wrap64_small. unfold in_int64, int64_min, int64_max. lia.
Qed.

Lemma select_valid (pat : regex) (df : table) :
  valid_table df -> valid_table (select pat df).
Proof.
  unfold valid_table, select. rewrite !Forall_forall.
  intros H r Hr. apply filter_In in Hr. apply H, Hr.
Qed.

Lemma pairs_from_In (k : nat) (bs as_ : list row) (o : gate_op) :
  In o (pairs_from k bs as_) ->
  exists j b a, In b bs /\ In a as_ /\ o = paired j b a.
Proof.
  revert k as_. induction bs as [|b bs IH]; intros k [|a as_]; simpl;
    try contradiction.
  intros [<- | H].
  - exists k, b, a. auto.
  - destruct (IH _ _ H) as (j & b' & a' & Hb & Ha & ->).
    exists j, b', a'. auto.
Qed.

(** C2.  Every row of [gate_ops_memory] has
    [memory_used = free_heap_before - free_heap_after] and
    [allocation_increase = allocated_after - allocated_before], as [int64]
    differences, which are the exact differences on a log of byte counts;
    and when the gate rows hold [N] before-events and [N] after-events the
    frame has exactly [N] rows. *)
Theorem gate_ops_memory_deltas (df : table) :
  exists g,
    gate_ops_memory df = OK g /\
    (forall o, In o g ->
       memory_used o = sub64 (free_heap_before o) (free_heap_after o) /\
       allocation_increase o = sub64 (allocated_after o) (allocated_before o)) /\
    (valid_table df -> forall o, In o g ->
       memory_used o = free_heap_before o - free_heap_after o /\
       allocation_increase o = allocated_after o - allocated_before o) /\
    (forall N, List.length (gate_ops_before df) = N ->
               List.length (gate_ops_after df) = N -> List.length g = N).
Proof.
  exists (pairs_from 1 (gate_ops_before df) (gate_ops_after df)).
  split; [apply gate_ops_memory_eq|]. split; [|split].
  - intros o Ho. apply pairs_from_In in Ho.
    destruct Ho as (j & b & a & _ & _ & ->). split; reflexivity.
  - intros Hv o Ho. apply pairs_from_In in Ho.
    destruct Ho as (j & b & a & Hb & Ha & ->).
    assert (Vb : valid_row b).
    { eapply Forall_forall; [|exact Hb].
      apply select_valid, select_valid, Hv. }
    assert (Va : valid_row a).
    { eapply Forall_forall; [|exact Ha].
      apply select_valid, select_valid, Hv. }
    destruct Vb as (? & ? & _), Va as (? & ? & _).
    unfold paired, with_deltas; simpl.
    split; apply sub64_byte_counts; assumption.
  - intros N Hb Ha. rewrite pairs_from_length, Hb, Ha. apply Nat.min_id.
Qed.

Local Open Scope list_scope.

(* ================================================================== *)
(** * Rounding in [float64] *)

(** ** Binary digits *)

Lemma digits2_pos_bounds (p : positive) :
  2 ^ (Zpos (digits2_pos p) - 1) <= Zpos p < 2 ^ Zpos (digits2_pos p).
Proof.
  induction p as [p IH | p IH |]; simpl digits2_pos.
  - rewrite Pos2Z.inj_succ.
    replace (Z.succ (Zpos (digits2_pos p)) - 1) with (Z.succ (Zpos (digits2_pos p) - 1)) by lia.
    rewrite !Z.pow_succ_r by lia. lia.
  - rewrite Pos2Z.inj_succ.
    replace (Z.succ (Zpos (digits2_pos p)) - 1) with (Z.succ (Zpos (digits2_pos p) - 1)) by lia.
    rewrite !Z.pow_succ_r by lia. lia.
  - simpl. lia.
Qed.

Lemma Zdigits2_bounds (m : Z) :
  0 < m -> 2 ^ (Zdigits2 m - 1) <= m < 2 ^ Zdigits2 m.
Proof.
  destruct m as [|p|p]; try lia. intros _. apply digits2_pos_bounds.
Qed.

Lemma Zdigits2_pos (m : Z) : 0 < m -> 0 < Zdigits2 m.
Proof. destruct m; simpl; lia. Qed.

(** The number of digits is fixed by the binade. *)
Lemma Zdigits2_unique (m d : Z) :
  2 ^ (d - 1) <= m < 2 ^ d -> 0 < d -> Zdigits2 m = d.
Proof.
  intros H Hd.
  assert (Hm : 0 < m) by (assert (0 < 2 ^ (d - 1)) by (apply Z.pow_pos_nonneg; lia); lia).
  pose proof (Zdigits2_bounds Hm) as B. pose proof (Zdigits2_pos Hm) as P.
  destruct (Z.lt_trichotomy (Zdigits2 m) d) as [L | [E | G]]; [|exact E|].
  - assert (2 ^ Zdigits2 m <= 2 ^ (d - 1)) by (apply Z.pow_le_mono_r; lia). lia.
  - assert (2 ^ d <= 2 ^ (Zdigits2 m - 1)) by (apply Z.pow_le_mono_r; lia). lia.
Qed.

(** ** Shifting right *)

Lemma iter_pos_swap {A} (f : A -> A) (p : positive) (x : A) :
  iter_pos f p (f x) = f (iter_pos f p x).
Proof.
  revert x. induction p as [p IH | p IH |]; intros x; simpl;
    rewrite ?IH; reflexivity.
Qed.

Lemma iter_pos_succ {A} (f : A -> A) (p : positive) (x : A) :
  iter_pos f (Pos.succ p) x = f (iter_pos f p x).
Proof.
  revert x. induction p as [p IH | p IH |]; intros x; simpl.
  - rewrite !IH. now rewrite !iter_pos_swap.
  - now rewrite !iter_pos_swap.
  - reflexivity.
Qed.

Lemma shr_1_m (mrs : shr_record) :
  0 <= shr_m mrs ->
  0 <= shr_m (shr_1 mrs) /\
  shr_m mrs = 2 * shr_m (shr_1 mrs) + (if shr_r (shr_1 mrs) then 1 else 0) /\
  shr_s (shr_1 mrs) = shr_r mrs || shr_s mrs.
Proof.
  destruct mrs as [m r s]. simpl. intros Hm.
  destruct m as [|[p|p|]|p]; simpl; try lia; repeat split; lia.
Qed.

Lemma shifted_1 (m0 : Z) :
  0 <= m0 -> shifted m0 1 (shr_1 (Build_shr_record m0 false false)).
Proof.
  intros H. destruct (@shr_1_m (Build_shr_record m0 false false) H) as (H1 & H2 & H3).
  set (mrs := shr_1 (Build_shr_record m0 false false)) in *.
  cbn [shr_m shr_r shr_s orb] in H2, H3.
  exists 0. change (2 ^ (1 - 1)) with 1. change (2 ^ 1) with 2.
  split; [lia|]. split; [exact H1|]. split; [|exact H3].
  destruct (shr_r mrs); lia.
Qed.

Lemma shifted_succ (m0 : Z) (p : positive) (mrs : shr_record) :
  shifted m0 p mrs -> shifted m0 (Pos.succ p) (shr_1 mrs).
Proof.
  intros (t & Ht & Hm & E & Hs).
  destruct (shr_1_m mrs Hm) as (H1 & H2 & H3).
  exists ((if shr_r mrs then 2 ^ (Zpos p - 1) else 0) + t).
  rewrite Pos2Z.inj_succ.
  replace (Z.succ (Zpos p) - 1) with (Zpos p) by lia.
  rewrite Z.pow_succ_r by lia.
  assert (P : 2 ^ Zpos p = 2 * 2 ^ (Zpos p - 1)).
  { rewrite <- Z.pow_succ_r by lia. f_equal. lia. }
  assert (0 < 2 ^ (Zpos p - 1)) by (apply Z.pow_pos_nonneg; lia).
  split; [destruct (shr_r mrs); lia|]. split; [exact H1|]. split.
  - rewrite E at 1. rewrite H2 at 1.
    destruct (shr_r (shr_1 mrs)), (shr_r mrs); lia.
  - rewrite H3, Hs. destruct (shr_r mrs); cbn [orb].
    + symmetry. apply negb_true_iff, Z.eqb_neq. lia.
    + reflexivity.
Qed.

Lemma shifted_iter (m0 : Z) (p : positive) :
  0 <= m0 -> shifted m0 p (iter_pos shr_1 p (Build_shr_record m0 false false)).
Proof.
  intros H. induction p as [|p IH] using Pos.peano_ind.
  - apply shifted_1, H.
  - rewrite iter_pos_succ. apply shifted_succ, IH.
Qed.

(** Shifts of any record divide the mantissa. *)
Lemma iter_shr_m (p : positive) (mrs : shr_record) :
  0 <= shr_m mrs ->
  shr_m (iter_pos shr_1 p mrs) = shr_m mrs / 2 ^ Zpos p.
Proof.
  intros H. induction p as [|p IH] using Pos.peano_ind.
  - simpl iter_pos. destruct (shr_1_m mrs H) as (H1 & H2 & _).
    change (2 ^ 1) with 2.
    destruct (shr_r (shr_1 mrs)); Z.div_mod_to_equations; lia.
  - rewrite iter_pos_succ.
    assert (Hq : 0 <= shr_m (iter_pos shr_1 p mrs)).
    { rewrite IH. apply Z.div_pos; [exact H | apply Z.pow_pos_nonneg; lia]. }
    destruct (shr_1_m _ Hq) as (H1 & H2 & _).
    rewrite Pos2Z.inj_succ, Z.pow_succ_r by lia.
    rewrite (Z.mul_comm 2), <- Z.div_div, <- IH by (try apply Z.pow_pos_nonneg; lia).
    destruct (shr_r (shr_1 (iter_pos shr_1 p mrs))); Z.div_mod_to_equations; lia.
Qed.

Lemma fexp_normal (e : Z) : -1021 <= e -> fexp prec emax e = e - 53.
Proof. unfold fexp, SpecFloat.emin, prec, emax. lia. Qed.

Lemma shr_record_of_loc_m (m : Z) (l : location) :
  shr_m (shr_record_of_loc m l) = m.
Proof. destruct l as [|[| |]]; reflexivity. Qed.

Lemma loc_of_shr_record_of_loc (m : Z) (l : location) :
  loc_of_shr_record (shr_record_of_loc m l) = l.
Proof. destruct l as [|[| |]]; reflexivity. Qed.

Lemma round_nearest_even_bounds (m : Z) (l : location) :
  m <= round_nearest_even m l <= m + 1.
Proof.
  unfold round_nearest_even. destruct l as [|[| |]]; try destruct (Z.even m); lia.
Qed.

(** The first half of [binary_round_aux] on a mantissa of at least 53
    digits in the normal range: shift to 53 digits, then round to nearest. *)
Lemma round_shift (mx ex : Z) (lx : location) :
  0 < mx -> 53 <= Zdigits2 mx -> -1021 <= Zdigits2 mx + ex ->
  let n := Zdigits2 mx - 53 in
  let mrs := fst (shr_fexp prec emax mx ex lx) in
  let r := round_nearest_even (shr_m mrs) (loc_of_shr_record mrs) in
  snd (shr_fexp prec emax mx ex lx) = ex + n /\
  mx / 2 ^ n <= r <= mx / 2 ^ n + 1 /\
  (lx = loc_Exact -> 2 * (mx mod 2 ^ n) < 2 ^ n -> r = mx / 2 ^ n) /\
  (lx = loc_Exact -> 2 ^ n < 2 * (mx mod 2 ^ n) -> r = mx / 2 ^ n + 1).
Proof.
  intros Hm Hd He n mrs r. subst mrs r. unfold shr_fexp.
  rewrite fexp_normal by exact He.
  replace (Zdigits2 mx + ex - 53 - ex) with n by (unfold n; lia).
  assert (Hn : 0 <= n) by (unfold n; lia).
  destruct n as [|p|p]; [| |lia]; unfold shr; cbn [fst snd].
  - rewrite shr_record_of_loc_m, loc_of_shr_record_of_loc.
    change (2 ^ 0) with 1. rewrite Z.div_1_r, Z.mod_1_r.
    split; [lia|]. split; [apply round_nearest_even_bounds|].
    split; intros -> ?; simpl; lia.
  - split; [reflexivity|].
    rewrite iter_shr_m by (rewrite shr_record_of_loc_m; lia).
    rewrite shr_record_of_loc_m.
    split; [apply round_nearest_even_bounds|].
    assert (P : 0 < 2 ^ (Zpos p - 1)) by (apply Z.pow_pos_nonneg; lia).
    assert (P2 : 2 ^ Zpos p = 2 * 2 ^ (Zpos p - 1)).
    { rewrite <- Z.pow_succ_r by lia. f_equal. lia. }
    split; intros -> Hrem; cbn [shr_record_of_loc];
      destruct (@shifted_iter mx p) as (t & Ht & Hq & E & Hs); try lia;
      assert (Q : shr_m (iter_pos shr_1 p (Build_shr_record mx false false))
                  = mx / 2 ^ Zpos p)
        by (apply (@iter_shr_m p (Build_shr_record mx false false));
            cbn [shr_m]; lia);
      set (mrs := iter_pos shr_1 p (Build_shr_record mx false false)) in *;
      assert (R : mx mod 2 ^ Zpos p = (if shr_r mrs then 2 ^ (Zpos p - 1) else 0) + t)
        by (symmetry; apply Z.mod_unique with (q := shr_m mrs);
            [left; destruct (shr_r mrs); lia | rewrite E at 1; ring]);
      rewrite <- Q; rewrite R in Hrem;
      destruct mrs as [m1 rb sb]; cbn [shr_m shr_r shr_s] in *;
      destruct rb; try lia; unfold loc_of_shr_record, round_nearest_even.
    + destruct sb; reflexivity.
    + destruct sb; [reflexivity|]. 
      symmetry in Hs. apply negb_false_iff, Z.eqb_eq in Hs. lia.
Qed.

(** [binary_round_aux] on a mantissa of at least 53 digits, away from
    underflow and overflow: the result is a normal number whose value is the
    shifted mantissa rounded to an integer [r]. *)
Lemma binary_round_aux_normal (s : bool) (mx ex : Z) (lx : location) :
  0 < mx -> 53 <= Zdigits2 mx ->
  -1021 <= Zdigits2 mx + ex -> Zdigits2 mx + ex <= 1023 ->
  let n := Zdigits2 mx - 53 in
  exists m' e' r,
    binary_round_aux prec emax s mx ex lx = S754_finite s m' e' /\
    normal_mantissa m' /\
    ex + n <= e' <= ex + n + 1 /\
    Zpos m' * 2 ^ (e' - (ex + n)) = r /\
    mx / 2 ^ n <= r <= mx / 2 ^ n + 1 /\
    (lx = loc_Exact -> 2 * (mx mod 2 ^ n) < 2 ^ n -> r = mx / 2 ^ n) /\
    (lx = loc_Exact -> 2 ^ n < 2 * (mx mod 2 ^ n) -> r = mx / 2 ^ n + 1).
Proof.
  intros Hm Hd He Hmax n.
  destruct (@round_shift mx ex lx Hm Hd He) as (E1 & Hr & F1 & F2).
  fold n in E1, Hr, F1, F2.
  unfold binary_round_aux.
  destruct (shr_fexp prec emax mx ex lx) as [mrs e1]. cbn [fst snd] in *. subst e1.
  set (r := round_nearest_even (shr_m mrs) (loc_of_shr_record mrs)) in *.
  pose proof (Zdigits2_bounds Hm) as B.
  assert (Hn : 0 <= n) by (unfold n; lia).
  assert (Hq : 2 ^ 52 <= mx / 2 ^ n < 2 ^ 53).
  { assert (P : 0 < 2 ^ n) by (apply Z.pow_pos_nonneg; lia).
    assert (D1 : 2 ^ (Zdigits2 mx - 1) = 2 ^ 52 * 2 ^ n).
    { rewrite <- Z.pow_add_r by lia. f_equal. unfold n. lia. }
    assert (D2 : 2 ^ Zdigits2 mx = 2 ^ 53 * 2 ^ n).
    { rewrite <- Z.pow_add_r by lia. f_equal. unfold n. lia. }
    split.
    - apply Z.div_le_lower_bound; lia.
    - apply Z.div_lt_upper_bound; lia. }
  destruct (Z.ltb_spec r (2 ^ 53)) as [Hlt | Hge].
  - (* no carry *)
    assert (Dr : Zdigits2 r = 53) by (apply Zdigits2_unique; lia).
    unfold shr_fexp. rewrite Dr, fexp_normal by lia.
    replace (53 + (ex + n) - 53 - (ex + n)) with 0 by lia.
    unfold shr. cbn [shr_record_of_loc shr_m].
    destruct r as [|pr|pr] eqn:Er; try lia.
    replace (ex + n <=? emax - prec) with true
      by (symmetry; apply Z.leb_le; unfold emax, prec, n; lia).
    exists pr, (ex + n), (Zpos pr).
    split; [reflexivity|]. split; [unfold normal_mantissa; lia|].
    split; [lia|]. split; [rewrite Z.sub_diag; change (2 ^ 0) with 1; lia|].
    auto.
  - (* carry into the next binade *)
    assert (Er : r = 2 ^ 53) by lia.
    unfold shr_fexp. rewrite Er.
    change (Zdigits2 (2 ^ 53)) with 54. rewrite fexp_normal by lia.
    replace (54 + (ex + n) - 53 - (ex + n)) with 1 by lia.
    unfold shr. cbn [shr_record_of_loc iter_pos].
    change (shr_m (shr_1 (Build_shr_record (2 ^ 53) false false))) with (Zpos (2 ^ 52)).
    cbv iota.
    replace (ex + n + 1 <=? emax - prec) with true
      by (symmetry; apply Z.leb_le; unfold emax, prec, n; lia).
    exists (2 ^ 52)%positive, (ex + n + 1), r.
    split; [reflexivity|]. split; [unfold normal_mantissa; simpl; lia|].
    split; [lia|]. split; [|auto].
    replace (ex + n + 1 - (ex + n)) with 1 by lia. rewrite Er. reflexivity.
Qed.

(** ** Normalising an integer mantissa *)

Lemma iter_xO (m p : positive) : Zpos (Pos.iter xO m p) = Zpos m * 2 ^ Zpos p.
Proof.
  induction p as [|p IH] using Pos.peano_ind.
  - simpl. lia.
  - rewrite Pos.iter_succ, Pos2Z.inj_xO, IH, Pos2Z.inj_succ, Z.pow_succ_r by lia. ring.
Qed.

Lemma shl_align_fst (m : positive) (e e' : Z) :
  e' <= e -> Zpos (fst (shl_align m e e')) = Zpos m * 2 ^ (e - e').
Proof.
  intros H. unfold shl_align. destruct (e' - e) as [|p|p] eqn:E; cbn [fst]; try lia.
  - replace (e - e') with 0 by lia. simpl. lia.
  - rewrite iter_xO. f_equal. f_equal. lia.
Qed.

Lemma shl_align_snd (m : positive) (e e' : Z) :
  e' <= e -> snd (shl_align m e e') = e'.
Proof.
  intros H. unfold shl_align. destruct (e' - e) as [|p|p] eqn:E; cbn [snd]; lia.
Qed.

Lemma shl_align_id (m : positive) (e e' : Z) :
  e <= e' -> shl_align m e e' = (m, e).
Proof.
  intros H. unfold shl_align. destruct (e' - e) as [|p|p] eqn:E; try reflexivity. lia.
Qed.

(** A mantissa of at most 53 digits is represented exactly. *)
Lemma binary_round_exact (s : bool) (m : positive) (e : Z) :
  let d := Zpos (digits2_pos m) in
  d <= 53 -> -1021 <= d + e -> d + e <= 1023 ->
  exists m',
    binary_round prec emax s m e = S754_finite s m' (e + d - 53) /\
    normal_mantissa m' /\ Zpos m' = Zpos m * 2 ^ (53 - d).
Proof.
  intros d Hd He Hmax. unfold binary_round. fold d.
  rewrite fexp_normal by exact He.
  pose proof (@shl_align_fst m e (d + e - 53) ltac:(lia)) as F.
  pose proof (@shl_align_snd m e (d + e - 53) ltac:(lia)) as S.
  destruct (shl_align m e (d + e - 53)) as [mz ez]. cbn [fst snd] in F, S. subst ez.
  replace (e - (d + e - 53)) with (53 - d) in F by lia.
  pose proof (digits2_pos_bounds m) as B. fold d in B.
  assert (N : 2 ^ 52 <= Zpos mz < 2 ^ 53).
  { rewrite F.
    assert (P : 0 < 2 ^ (53 - d)) by (apply Z.pow_pos_nonneg; lia).
    assert (D1 : 2 ^ 52 = 2 ^ (d - 1) * 2 ^ (53 - d)).
    { rewrite <- Z.pow_add_r by (unfold d; lia). f_equal. lia. }
    assert (D2 : 2 ^ 53 = 2 ^ d * 2 ^ (53 - d)).
    { rewrite <- Z.pow_add_r by (unfold d; lia). f_equal. lia. }
    rewrite D1, D2. nia. }
  assert (Dz : Zdigits2 (Zpos mz) = 53) by (apply Zdigits2_unique; lia).
  destruct (@binary_round_aux_normal s (Zpos mz) (d + e - 53) loc_Exact)
    as (m' & e' & r & E & Nm & He' & Hr & Hb & F1 & _); try lia.
  rewrite Dz in *. replace (53 - 53) with 0 in * by lia.
  change (2 ^ 0) with 1 in *. rewrite Z.div_1_r, Z.mod_1_r in *.
  specialize (F1 eq_refl ltac:(lia)). subst r.
  assert (e' = d + e - 53).
  { destruct (Z.eq_dec e' (d + e - 53 + 0)) as [->|Hne]; [lia|].
    replace (e' - (d + e - 53 + 0)) with 1 in F1 by lia.
    change (2 ^ 1) with 2 in F1. unfold normal_mantissa in Nm. lia. }
  subst e'. replace (d + e - 53 - (d + e - 53 + 0)) with 0 in F1 by lia.
  change (2 ^ 0) with 1 in F1.
  exists m'. rewrite E. split; [f_equal; lia|]. split; [exact Nm|]. lia.
Qed.

Lemma binary_round_long (s : bool) (m : positive) (e : Z) :
  53 <= Zpos (digits2_pos m) -> -1021 <= Zpos (digits2_pos m) + e ->
  binary_round prec emax s m e = binary_round_aux prec emax s (Zpos m) e loc_Exact.
Proof.
  intros Hd He. unfold binary_round.
  rewrite fexp_normal by exact He. rewrite shl_align_id by lia. reflexivity.
Qed.

(** Every rounded mantissa in the normal range gives a normal number of the
    same sign, with the exponent its length dictates, one more on a carry. *)
Lemma binary_round_normal (s : bool) (m : positive) (e : Z) :
  let d := Zpos (digits2_pos m) in
  -1021 <= d + e -> d + e <= 1023 ->
  exists m' e',
    binary_round prec emax s m e = S754_finite s m' e' /\
    normal_mantissa m' /\ e + d - 53 <= e' <= e + d - 52 /\
    (d <= 53 -> e' = e + d - 53 /\ Zpos m' = Zpos m * 2 ^ (53 - d)).
Proof.
  intros d He Hmax. destruct (Z.le_gt_cases d 53) as [Hd | Hd].
  - destruct (@binary_round_exact s m e Hd He Hmax) as (m' & E & N & V).
    exists m', (e + d - 53). split; [exact E|]. split; [exact N|].
    split; [lia|]. intros _. split; [reflexivity | exact V].
  - rewrite binary_round_long by (fold d; lia).
    destruct (@binary_round_aux_normal s (Zpos m) e loc_Exact)
      as (m' & e' & r & E & Nm & He' & _); simpl Zdigits2; fold d; try lia.
    exists m', e'. split; [exact E|]. split; [exact Nm|].
    simpl Zdigits2 in He'. fold d in He'. split; [lia|]. intros; lia.
Qed.

(** ** Integer operands *)

Lemma of_int64_zero : of_int64 0 = S754_zero false.
Proof. reflexivity. Qed.

Lemma of_int64_pos (z : Z) :
  0 < z <= int64_max ->
  exists m e,
    of_int64 z = S754_finite false m e /\ normal_mantissa m /\
    -52 <= e <= 11 /\ (z < 2 ^ 53 -> e <= 0).
Proof.
  intros Hz. unfold int64_max in Hz. destruct z as [|p|p]; try lia.
  unfold of_int64, binary_normalize.
  pose proof (digits2_pos_bounds p) as B.
  assert (D : 1 <= Zpos (digits2_pos p) <= 63).
  { split; [lia|].
    destruct (Z.le_gt_cases (Zpos (digits2_pos p)) 63) as [L | G]; [exact L|].
    assert (2 ^ 63 <= 2 ^ (Zpos (digits2_pos p) - 1)) by (apply Z.pow_le_mono_r; lia).
    lia. }
  destruct (@binary_round_normal false p 0) as (m & e & E & N & He & Hx); try lia.
  exists m, e. split; [exact E|]. split; [exact N|]. split; [lia|].
  intros Hlt.
  assert (Zpos (digits2_pos p) <= 53).
  { destruct (Z.le_gt_cases (Zpos (digits2_pos p)) 53) as [L | G]; [exact L|].
    assert (2 ^ 53 <= 2 ^ (Zpos (digits2_pos p) - 1)) by (apply Z.pow_le_mono_r; lia).
    lia. }
  destruct (Hx ltac:(lia)) as (-> & _). lia.
Qed.

(** ** Division of normal numbers *)

Lemma fdiv_normal (m1 m2 : positive) (e1 e2 : Z) :
  normal_mantissa m1 -> normal_mantissa m2 ->
  -400 <= e1 <= 400 -> -400 <= e2 <= 400 ->
  exists m e,
    fdiv (S754_finite false m1 e1) (S754_finite false m2 e2) = S754_finite false m e /\
    normal_mantissa m /\ e1 - e2 - 53 <= e <= e1 - e2 - 51.
Proof.
  intros N1 N2 He1 He2. unfold normal_mantissa in N1, N2.
  unfold fdiv, SFdiv, SFdiv_core_binary.
  rewrite (@Zdigits2_unique (Zpos m1) 53), (@Zdigits2_unique (Zpos m2) 53) by lia.
  rewrite fexp_normal by lia.
  replace (Z.min (53 + e1 - (53 + e2) - 53) (e1 - e2)) with (e1 - e2 - 53) by lia.
  replace (e1 - e2 - (e1 - e2 - 53)) with 53 by lia.
  cbv iota. rewrite Z.shiftl_mul_pow2 by lia.
  pose proof (Z_div_mod (Zpos m1 * 2 ^ 53) (Zpos m2) ltac:(lia)) as DM.
  destruct (Z.div_eucl (Zpos m1 * 2 ^ 53) (Zpos m2)) as [q r].
  destruct DM as (DM & Hr). cbn [xorb].
  assert (Hq : 2 ^ 52 <= q < 2 ^ 54) by nia.
  assert (Dq : 53 <= Zdigits2 q <= 54).
  { assert (0 < q) by lia. pose proof (Zdigits2_bounds H) as B.
    split.
    - destruct (Z.le_gt_cases 53 (Zdigits2 q)) as [L | G]; [exact L|].
      assert (2 ^ Zdigits2 q <= 2 ^ 52).
      { apply Z.pow_le_mono_r; lia. } lia.
    - destruct (Z.le_gt_cases (Zdigits2 q) 54) as [L | G]; [exact L|].
      assert (2 ^ 54 <= 2 ^ (Zdigits2 q - 1)).
      { apply Z.pow_le_mono_r; lia. } lia. }
  destruct (@binary_round_aux_normal false q (e1 - e2 - 53) (new_location (Zpos m2) r))
    as (m & e & rr & E & Nm & He & _); try lia.
  exists m, e. split; [exact E|]. split; [exact Nm|]. lia.
Qed.

Lemma of_int64_1 : of_int64 1 = S754_finite false one_mantissa (-52).
Proof. reflexivity. Qed.

Lemma of_int64_100 : of_int64 100 = S754_finite false hundred_mantissa (-46).
Proof. reflexivity. Qed.

Lemma digits_le (m d : Z) : 0 < m -> 0 <= d -> m < 2 ^ d -> Zdigits2 m <= d.
Proof.
  intros Hm Hd H. pose proof (Zdigits2_bounds Hm) as B.
  destruct (Z.le_gt_cases (Zdigits2 m) d) as [L | G]; [exact L|].
  assert (2 ^ d <= 2 ^ (Zdigits2 m - 1)) by (apply Z.pow_le_mono_r; lia). lia.
Qed.

Lemma digits_ge (m d : Z) : 0 < m -> 2 ^ (d - 1) <= m -> d <= Zdigits2 m.
Proof.
  intros Hm H. pose proof (Zdigits2_bounds Hm) as B. pose proof (Zdigits2_pos Hm).
  destruct (Z.le_gt_cases d (Zdigits2 m)) as [L | G]; [exact L|].
  assert (2 ^ Zdigits2 m <= 2 ^ (d - 1)) by (apply Z.pow_le_mono_r; lia). lia.
Qed.

(** ** [1 - q] for a normal positive [q] *)

Lemma fsub_one (mq : positive) (eq : Z) :
  normal_mantissa mq -> -400 <= eq <= 400 ->
  let p := fsub (of_int64 1) (S754_finite false mq eq) in
  p = S754_zero false \/
  (exists m e, p = S754_finite true m e /\ normal_mantissa m /\ -500 <= e <= 500) \/
  (exists m e, p = S754_finite false m e /\ normal_mantissa m /\ -500 <= e /\
               (e <= -53 \/ (e = -52 /\ m = one_mantissa /\ eq <= -106))).
Proof.
  intros Nq Heq p. subst p. rewrite of_int64_1. unfold fsub, SFsub.
  set (ez := Z.min (-52) eq).
  assert (Hez : ez <= -52 /\ ez <= eq /\ -400 <= ez) by (unfold ez; lia).
  rewrite !shl_align_fst by lia. cbn [cond_Zopp].
  set (a := Zpos one_mantissa * 2 ^ (-52 - ez)).
  set (b := Zpos mq * 2 ^ (eq - ez)).
  assert (Ha : a = 2 ^ (- ez)).
  { unfold a. change (Zpos one_mantissa) with (2 ^ 52).
    rewrite <- Z.pow_add_r by lia. f_equal. lia. }
  unfold normal_mantissa in Nq.
  assert (Pb : 0 < 2 ^ (eq - ez)) by (apply Z.pow_pos_nonneg; lia).
  assert (Hb : 2 ^ 52 * 2 ^ (eq - ez) <= b < 2 ^ 53 * 2 ^ (eq - ez)) by (unfold b; nia).
  rewrite <- !Z.pow_add_r in Hb by lia.
  destruct (a - b) as [|pz|pz] eqn:Ez; unfold binary_normalize.
  - left. reflexivity.
  - (* 0 < 1 - q *)
    right. right.
    assert (Hlt : Zpos pz < 2 ^ (- ez)) by lia.
    pose proof (@digits_le (Zpos pz) (- ez) ltac:(lia) ltac:(lia) Hlt) as Dle.
    simpl Zdigits2 in Dle.
    pose proof (digits2_pos_bounds pz) as B.
    set (d := Zpos (digits2_pos pz)) in *.
    assert (Hd1 : 1 <= d) by (unfold d; lia).
    destruct (Z.le_gt_cases d 53) as [Hd | Hd].
    + destruct (@binary_round_exact false pz ez) as (m & E & N & V); fold d; try lia.
      fold d in E. exists m, (ez + d - 53). split; [exact E|]. split; [exact N|]. lia.
    + rewrite binary_round_long by (fold d; lia).
      destruct (@binary_round_aux_normal false (Zpos pz) ez loc_Exact)
        as (m & e & r & E & N & He & Hr & Hbd & F1 & _);
        simpl Zdigits2; fold d; try lia.
      simpl Zdigits2 in *. fold d in He, Hr, Hbd, F1.
      set (n := d - 53) in *.
      exists m, e. split; [exact E|]. split; [exact N|]. split; [lia|].
      destruct (Z.le_gt_cases e (-53)) as [L | G]; [left; exact L | right].
      assert (e = -52 /\ d = - ez) as (-> & Hdz) by lia.
      replace (-52 - (ez + n)) with 1 in Hr by lia. change (2 ^ 1) with 2 in Hr.
      unfold normal_mantissa in N.
      assert (Pn : 0 < 2 ^ n) by (apply Z.pow_pos_nonneg; lia).
      assert (Hq : Zpos pz / 2 ^ n < 2 ^ 53).
      { apply Z.div_lt_upper_bound; [lia|].
        rewrite <- Z.pow_add_r by lia. replace (n + 53) with (- ez) by lia. lia. }
      assert (Hm : Zpos m = 2 ^ 52) by lia.
      split; [reflexivity|]. split.
      { unfold one_mantissa. apply Pos2Z.inj. rewrite Hm. reflexivity. }
      destruct (Z.le_gt_cases eq (-106)) as [L | G2]; [exact L | exfalso].
      assert (Hr53 : r = 2 ^ 53) by lia.
      assert (Hq' : Zpos pz / 2 ^ n = 2 ^ 53 - 1) by lia.
      pose proof (Z.div_mod (Zpos pz) (2 ^ n) ltac:(lia)) as DM.
      pose proof (Z.mod_pos_bound (Zpos pz) (2 ^ n) Pn) as MB.
      rewrite Hq' in DM.
      assert (Hbn : 2 ^ n <= b).
      { eapply Z.le_trans; [|apply Hb]. apply Z.pow_le_mono_r; lia. }
      assert (A2 : a = 2 ^ 53 * 2 ^ n).
      { rewrite Ha, <- Z.pow_add_r by lia. f_equal. lia. }
      assert (Hrem : Zpos pz mod 2 ^ n = 0) by lia.
      rewrite F1 in Hr53; [lia | reflexivity | lia].
  - (* 1 - q < 0 *)
    right. left.
    assert (Hlt : Zpos pz < 2 ^ (52 + (eq - ez) + 1)).
    { replace (52 + (eq - ez) + 1) with (53 + (eq - ez)) by lia.
      assert (0 < a) by (rewrite Ha; apply Z.pow_pos_nonneg; lia). lia. }
    pose proof (@digits_le (Zpos pz) (52 + (eq - ez) + 1) ltac:(lia) ltac:(lia) Hlt) as Dle.
    simpl Zdigits2 in Dle.
    destruct (@binary_round_normal true pz ez) as (m & e & E & N & He & _); try lia.
    exists m, e. split; [exact E|]. split; [exact N|]. lia.
Qed.

(** ** Times one hundred *)

Lemma fmul_100 (sp : bool) (mp : positive) (ep : Z) :
  normal_mantissa mp -> -500 <= ep <= 500 ->
  exists m e,
    fmul (S754_finite sp mp ep) (of_int64 100) = S754_finite sp m e /\
    (ep <= -53 -> e < -46 \/ (e = -46 /\ Zpos m < Zpos hundred_mantissa)).
Proof.
  intros Np Hep. rewrite of_int64_100. unfold fmul, SFmul.
  replace (xorb sp false) with sp by (destruct sp; reflexivity).
  rewrite Pos2Z.inj_mul.
  unfold normal_mantissa in Np.
  set (M := Zpos mp * Zpos hundred_mantissa) in *.
  assert (HM : 2 ^ 104 <= M < 2 ^ 106)
    by (unfold M, hundred_mantissa; lia).
  assert (Dm : 105 <= Zdigits2 M <= 106).
  { split; [apply digits_ge | apply digits_le]; lia. }
  destruct (@binary_round_aux_normal sp M (ep + -46) loc_Exact)
    as (m & e & r & E & N & He & Hr & Hbd & F1 & _); try lia.
  exists m, e. split; [exact E|]. intros Hlt.
  unfold normal_mantissa in N.
  assert (Hc : e - (ep + -46 + (Zdigits2 M - 53)) = 0 \/
               e - (ep + -46 + (Zdigits2 M - 53)) = 1) by lia.
  assert (Hd : Zdigits2 M = 105 \/ Zdigits2 M = 106) by lia.
  unfold M, hundred_mantissa in *.
  destruct Hd as [Hd | Hd]; rewrite Hd in *;
    destruct Hc as [Hc | Hc]; rewrite Hc in Hr;
    [change (2 ^ 0) with 1 in Hr | change (2 ^ 1) with 2 in Hr
    |change (2 ^ 0) with 1 in Hr | change (2 ^ 1) with 2 in Hr].
  - left. clear - Hc Hlt. lia.
  - (* carry from 105 digits *)
    assert (Zpos m <= 2 ^ 52).
    { assert (r <= 2 ^ 53); [|lia].
      eapply Z.le_trans; [apply Hbd|].
      assert (Zpos mp * 7036874417766400 / 2 ^ (105 - 53) < 2 ^ 53); [|lia].
      apply Z.div_lt_upper_bound; [reflexivity|].
      change (2 ^ (105 - 53) * 2 ^ 53) with (2 ^ 105).
      pose proof (@Zdigits2_bounds (Zpos mp * 7036874417766400) ltac:(lia)) as B.
      rewrite Hd in B. lia. }
    destruct (Z.eq_dec ep (-53)) as [-> | Hne]; [right | left; clear - Hc Hlt Hne; lia].
    split; [clear - Hc; lia | lia].
  - (* 106 digits, no carry *)
    destruct (Z.eq_dec ep (-53)) as [-> | Hne]; [right | left; clear - Hc Hlt Hne; lia].
    split; [clear - Hc; lia|].
    specialize (F1 eq_refl). rewrite Z.mul_1_r in Hr. subst r.
    change (2 ^ (106 - 53)) with 9007199254740992 in *.
    change (2 ^ 52) with 4503599627370496 in *.
    change (2 ^ 53) with 9007199254740992 in *.
    pose proof (Z.div_mod (Zpos mp * 7036874417766400) 9007199254740992
                  ltac:(lia)) as DM.
    pose proof (Z.mod_pos_bound (Zpos mp * 7036874417766400) 9007199254740992
                  ltac:(lia)) as MB.
    set (q := Zpos mp * 7036874417766400 / 9007199254740992) in *.
    set (rem := (Zpos mp * 7036874417766400) mod 9007199254740992) in *.
    clearbody q rem. clear - Np Hbd F1 DM MB.
    assert (Hq : q < 7036874417766400) by nia.
    destruct (Z.eq_dec q 7036874417766399) as [-> | Hne]; [|lia].
    rewrite F1; lia.
  - (* 106 digits with a carry: the product is too small for that *)
    exfalso.
    assert (Zpos mp * 7036874417766400 / 2 ^ (106 - 53) < 2 ^ 53)
      by (apply Z.div_lt_upper_bound; [reflexivity | exact (proj2 HM)]).
    assert (r = 2 ^ 53) by lia.
    change (2 ^ (106 - 53)) with 9007199254740992 in *.
    change (2 ^ 52) with 4503599627370496 in *.
    change (2 ^ 53) with 9007199254740992 in *.
    pose proof (Z.div_mod (Zpos mp * 7036874417766400) 9007199254740992
                  ltac:(lia)) as DM.
    pose proof (Z.mod_pos_bound (Zpos mp * 7036874417766400) 9007199254740992
                  ltac:(lia)) as MB.
    set (q := Zpos mp * 7036874417766400 / 9007199254740992) in *.
    set (rem := (Zpos mp * 7036874417766400) mod 9007199254740992) in *.
    clearbody q rem. clear - Np Hbd H0 DM MB. nia.
Qed.

Lemma below_100 (m : positive) (e : Z) :
  e < -46 \/ (e = -46 /\ Zpos m < Zpos hundred_mantissa) ->
  fleb (S754_finite false m e) (of_int64 100) = true /\
  feqb (S754_finite false m e) (of_int64 100) = false.
Proof.
  rewrite of_int64_100. unfold fleb, feqb, SFleb, SFeqb, SFcompare.
  intros [H | (-> & H)].
  - apply Z.compare_lt_iff in H. rewrite H. split; reflexivity.
  - rewrite Z.compare_refl, Pos.compare_cont_spec.
    rewrite Pos2Z.inj_compare. unfold Z.lt in H. rewrite H.
    split; reflexivity.
Qed.

(** C3, as [float64] computes it.  For a row with positive [free_heap] and
    non-negative [largest_free_block] the fragmentation percentage is a
    finite number not above 100, and it is 100 when [largest_free_block] is
    0; the converse holds while [free_heap] is below [2^53]: there a value
    of 100 forces [largest_free_block = 0]. *)
Theorem fragmentation_percent_range (r : row) :
  0 < free_heap r <= int64_max ->
  0 <= largest_free_block r <= int64_max ->
  is_finite (fragmentation_percent r) = true /\
  fleb (fragmentation_percent r) (of_int64 100) = true /\
  (largest_free_block r = 0 -> fragmentation_percent r = of_int64 100) /\
  (free_heap r < 2 ^ 53 ->
   feqb (fragmentation_percent r) (of_int64 100) = true ->
   largest_free_block r = 0).
Proof.
  intros Hfh Hlfb. unfold fragmentation_percent, fragmentation.
  destruct (of_int64_pos Hfh) as (m2 & e2 & E2 & N2 & He2 & Hx2). rewrite E2.
  destruct (Z.eq_dec (largest_free_block r) 0) as [Z0 | NZ].
  - rewrite Z0. change (of_int64 0) with (S754_zero false).
    change (fdiv (S754_zero false) (S754_finite false m2 e2)) with (S754_zero false).
    change (fmul (fsub (of_int64 1) (S754_zero false)) (of_int64 100))
      with (fmul (of_int64 1) (of_int64 100)).
    replace (fmul (of_int64 1) (of_int64 100)) with (of_int64 100)
      by (vm_compute; reflexivity).
    repeat split; reflexivity.
  - destruct (@of_int64_pos (largest_free_block r) ltac:(lia))
      as (m1 & e1 & E1 & N1 & He1 & _). rewrite E1.
    destruct (@fdiv_normal m1 m2 e1 e2 N1 N2 ltac:(lia) ltac:(lia))
      as (mq & eq & Eq & Nq & Heq). rewrite Eq.
    destruct (@fsub_one mq eq Nq ltac:(lia))
      as [Ep | [(m & e & Ep & Np & He) | (m & e & Ep & Np & He & Hp)]]; rewrite Ep.
    + change (fmul (S754_zero false) (of_int64 100)) with (S754_zero false).
      split; [reflexivity|]. split; [reflexivity|].
      split; [intros; contradiction | intros _ H; discriminate H].
    + destruct (@fmul_100 true m e Np He) as (m' & e' & Em & _). rewrite Em.
      split; [reflexivity|]. split; [reflexivity|].
      split; [intros; contradiction | intros _ H; discriminate H].
    + destruct Hp as [Hlt | (-> & -> & Hsmall)].
      * destruct (@fmul_100 false m e Np ltac:(lia)) as (m' & e' & Em & Hb).
        rewrite Em. destruct (below_100 (Hb Hlt)) as (Hle & Hne).
        split; [reflexivity|]. split; [exact Hle|].
        split; [intros; contradiction | intros _ H; congruence].
      * replace (fmul (S754_finite false one_mantissa (-52)) (of_int64 100))
          with (of_int64 100) by (vm_compute; reflexivity).
        split; [reflexivity|]. split; [reflexivity|].
        split; [intros; contradiction | intros Hs _].
        specialize (Hx2 Hs). lia.
Qed.

Lemma fragmentation_percent_range_witness :
  fleb (fragmentation_percent huge_heap_row) (of_int64 100) = true /\
  fragmentation_percent (mkRow 0 "boot" 1000 0 0 0) = of_int64 100.
Proof.
  split.
  - apply (@fragmentation_percent_range huge_heap_row);
      unfold int64_max; simpl; lia.
  - apply (@fragmentation_percent_range (mkRow 0 "boot" 1000 0 0 0));
      unfold int64_max; simpl; lia.
Defined.

(** C3 as written fails: [float64] gives exactly 100 for a row whose largest
    free block is 1 byte out of [2^54]. *)
Lemma fragmentation_100_with_free_block :
  ~ (forall r : row,
       0 < free_heap r <= int64_max -> 0 <= largest_free_block r <= int64_max ->
       (feqb (fragmentation_percent r) (of_int64 100) = true <->
        largest_free_block r = 0)).
Proof.
  intros H.
  assert (E : largest_free_block huge_heap_row = 0).
  { apply H; [unfold int64_max; simpl; lia | unfold int64_max; simpl; lia|].
    vm_compute. reflexivity. }
  discriminate E.
Qed.

(* ================================================================== *)
(** * Lookups by exact label *)

Lemma with_event_cons (label : string) (df : table) (r : row) (rest : table) :
  with_event label df = r :: rest -> first_row label df r.
Proof.
  unfold with_event, first_row. induction df as [|x df IH]; simpl; [discriminate|].
  destruct (String.eqb_spec (event x) label) as [E|E].
  - intros H. inversion H; subst. exists [], df. simpl. auto.
  - intros H. destruct (IH H) as (pre & post & -> & Hr & Hpre).
    exists (x :: pre), post. simpl. repeat split; auto.
    intros y [<-|Hy]; auto.
Qed.

Lemma with_event_nil (label : string) (df : table) :
  with_event label df = [] <-> has_event label df = false.
Proof.
  unfold with_event, has_event. induction df as [|x df IH]; simpl; [tauto|].
  rewrite (String.eqb_sym label). destruct (String.eqb (event x) label); simpl.
  - split; discriminate.
  - exact IH.
Qed.

Lemma first_row_unique (label : string) (df : table) (r r' : row) :
  first_row label df r -> first_row label df r' -> r = r'.
Proof.
  intros (pre & post & -> & E & H) (pre' & post' & E' & F & H').
  revert pre' E' H'. induction pre as [|x pre IH]; intros [|y pre'] E' H'; simpl in *.
  - now inversion E'.
  - inversion E'; subst. exfalso. apply (H' y); auto.
  - inversion E'; subst. exfalso. apply (H r'); auto.
  - inversion E'; subst. apply (IH (fun z Hz => H z (or_intror Hz)) pre'); auto.
Qed.

Lemma first_free_heap_OK (label : string) (df : table) (v : Z) :
  first_free_heap label df = OK v ->
  exists r, first_row label df r /\ v = free_heap r.
Proof.
  unfold first_free_heap. destruct (with_event label df) as [|r rest] eqn:E;
    simpl; [discriminate|].
  intros H. inversion H. exists r. split; [eapply with_event_cons, E | reflexivity].
Qed.

Lemma first_free_heap_absent (label : string) (df : table) :
  has_event label df = false -> first_free_heap label df = Raise IndexError.
Proof.
  intros H. apply with_event_nil in H. unfold first_free_heap. now rewrite H.
Qed.

Lemma first_free_heap_present (label : string) (df : table) :
  has_event label df = true -> exists v, first_free_heap label df = OK v.
Proof.
  intros H. unfold first_free_heap.
  destruct (with_event label df) as [|r rest] eqn:E.
  - apply with_event_nil in E. congruence.
  - now exists (free_heap r).
Qed.

Lemma first_free_heap_cases (label : string) (df : table) :
  (exists v, first_free_heap label df = OK v) \/
  first_free_heap label df = Raise IndexError.
Proof.
  unfold first_free_heap. destruct (with_event label df); simpl; eauto.
Qed.

(* ================================================================== *)
(** * Initialization summary *)

Lemma init_summary_inv (df : table) (s : list init_row) :
  init_summary df = OK s ->
  exists b1 b2 b3 a1 a2 a3,
    first_free_heap "Before WiFi init" df = OK b1 /\
    first_free_heap "Before Servo init" df = OK b2 /\
    first_free_heap "Before MQTT init" df = OK b3 /\
    first_free_heap "After WiFi init" df = OK a1 /\
    first_free_heap "After Servo init" df = OK a2 /\
    first_free_heap "After MQTT init" df = OK a3 /\
    s = init_table b1 b2 b3 a1 a2 a3.
Proof.
  unfold init_summary.
  destruct (first_free_heap "Before WiFi init" df) as [b1|] eqn:B1; simpl; [|discriminate].
  destruct (first_free_heap "Before Servo init" df) as [b2|] eqn:B2; simpl; [|discriminate].
  destruct (first_free_heap "Before MQTT init" df) as [b3|] eqn:B3; simpl; [|discriminate].
  destruct (first_free_heap "After WiFi init" df) as [a1|] eqn:A1; simpl; [|discriminate].
  destruct (first_free_heap "After Servo init" df) as [a2|] eqn:A2; simpl; [|discriminate].
  destruct (first_free_heap "After MQTT init" df) as [a3|] eqn:A3; simpl; [|discriminate].
  intros H. inversion H. exists b1, b2, b3, a1, a2, a3. repeat split; reflexivity.
Qed.

Lemma init_summary_absent (df : table) (label : string) :
  In label init_labels -> has_event label df = false ->
  init_summary df = Raise IndexError.
Proof.
  intros Hl Habs. apply first_free_heap_absent in Habs.
  unfold init_summary.
  destruct (first_free_heap_cases "Before WiFi init" df) as [(b1 & B1) | B1];
    rewrite B1; simpl; [|reflexivity].
  destruct (first_free_heap_cases "Before Servo init" df) as [(b2 & B2) | B2];
    rewrite B2; simpl; [|reflexivity].
  destruct (first_free_heap_cases "Before MQTT init" df) as [(b3 & B3) | B3];
    rewrite B3; simpl; [|reflexivity].
  destruct (first_free_heap_cases "After WiFi init" df) as [(a1 & A1) | A1];
    rewrite A1; simpl; [|reflexivity].
  destruct (first_free_heap_cases "After Servo init" df) as [(a2 & A2) | A2];
    rewrite A2; simpl; [|reflexivity].
  destruct (first_free_heap_cases "After MQTT init" df) as [(a3 & A3) | A3];
    rewrite A3; simpl; [|reflexivity].
  exfalso. unfold init_labels in Hl. simpl in Hl.
  repeat (destruct Hl as [<- | Hl]; [congruence|]). exact Hl.
Qed.

Lemma init_summary_present (df : table) :
  (forall label, In label init_labels -> has_event label df = true) ->
  exists s, init_summary df = OK s.
Proof.
  intros H.
  destruct (init_summary df) as [s|e] eqn:E; [now exists s|].
  exfalso. unfold init_summary in E.
  destruct (@first_free_heap_present "Before WiFi init" df) as (b1 & B1);
    [apply H; simpl; tauto|]; rewrite B1 in E; simpl in E.
  destruct (@first_free_heap_present "Before Servo init" df) as (b2 & B2);
    [apply H; simpl; tauto|]; rewrite B2 in E; simpl in E.
  destruct (@first_free_heap_present "Before MQTT init" df) as (b3 & B3);
    [apply H; simpl; tauto|]; rewrite B3 in E; simpl in E.
  destruct (@first_free_heap_present "After WiFi init" df) as (a1 & A1);
    [apply H; simpl; tauto|]; rewrite A1 in E; simpl in E.
  destruct (@first_free_heap_present "After Servo init" df) as (a2 & A2);
    [apply H; simpl; tauto|]; rewrite A2 in E; simpl in E.
  destruct (@first_free_heap_present "After MQTT init" df) as (a3 & A3);
    [apply H; simpl; tauto|]; rewrite A3 in E; simpl in E.
  discriminate.
Qed.

Lemma init_summary_cases (df : table) :
  (exists s, init_summary df = OK s /\
             forall label, In label init_labels -> has_event label df = true) \/
  (init_summary df = Raise IndexError /\
   exists label, In label init_labels /\ has_event label df = false).
Proof.
  destruct (forallb (fun l => has_event l df) init_labels) eqn:E.
  - left. rewrite forallb_forall in E.
    destruct (init_summary_present df E) as (s & Hs). eauto.
  - right. 
    assert (exists label, In label init_labels /\ has_event label df = false)
      as (label & Hl & Habs).
    { clear -E. induction init_labels as [|l ls IH]; simpl in E; [discriminate|].
      destruct (has_event l df) eqn:El.
      - destruct (IH E) as (x & Hx & Hx'). exists x. simpl. auto.
      - exists l. simpl. auto. }
    split; [eapply init_summary_absent; eauto | eauto].
Qed.

(* ================================================================== *)
(** * Fragmentation summary *)

Lemma stage_if_present_eq (label : string) (df : table) :
  stage_if_present label df = OK (stage_rows label df).
Proof.
  unfold stage_if_present, stage_rows.
  destruct (with_event label df) as [|r rest] eqn:E.
  - apply with_event_nil in E. now rewrite E.
  - destruct (has_event label df) eqn:H; [reflexivity|].
    apply with_event_nil in H. congruence.
Qed.

Lemma frag_stages_eq (df : table) :
  frag_stages df =
  match gate_ops df with
  | [] => OK (init_stages df)
  | _ :: _ => let? avg := gate_ops_avg df in OK (init_stages df ++ [avg])%list
  end.
Proof.
  unfold frag_stages, init_stages. rewrite !stage_if_present_eq. simpl.
  destruct (gate_ops df); simpl.
  - now rewrite !app_nil_r.
  - destruct (gate_ops_avg df); simpl; [|reflexivity].
    now rewrite <- !app_assoc.
Qed.

Lemma stage_rows_label (label : string) (df : table) (st : frag_stage) :
  In st (stage_rows label df) -> stage st = label.
Proof.
  unfold stage_rows. destruct (with_event label df) as [|r rest] eqn:E; [intros []|].
  intros [<-|[]]. apply with_event_cons in E. destruct E as (_ & _ & _ & E & _).
  exact E.
Qed.

Lemma init_stages_label (df : table) (st : frag_stage) :
  In st (init_stages df) ->
  stage st = "Before WiFi init" \/ stage st = "After WiFi init" \/
  stage st = "After MQTT init".
Proof.
  unfold init_stages. rewrite !in_app_iff.
  intros [H | [H | H]]; apply stage_rows_label in H; auto.
Qed.

Lemma stage_rows_int (label : string) (df : table) (st : frag_stage) :
  In st (stage_rows label df) ->
  exists r, st = stage_of_row r.
Proof.
  unfold stage_rows. destruct (with_event label df) as [|r rest]; [intros []|].
  intros [<-|[]]. now exists r.
Qed.

Lemma init_stages_int (df : table) (st : frag_stage) :
  In st (init_stages df) -> exists r, st = stage_of_row r.
Proof.
  unfold init_stages. rewrite !in_app_iff.
  intros [H | [H | H]]; eapply stage_rows_int; eassumption.
Qed.

(** ** The columns of the frame *)

Lemma frag_rows_map (f g : frag_stage -> num) (l : list frag_stage) :
  frag_rows (map stage l) (map f l) (map g l) (map stage_fragmentation_index l) =
  map (fun st => mkFragStage (stage st) (f st) (g st) (stage_fragmentation_index st)) l.
Proof. induction l as [|st l IH]; simpl; [reflexivity | now rewrite IH]. Qed.

Lemma column_ints (f : frag_stage -> num) (l : list frag_stage) :
  (forall st, In st l -> is_float (f st) = false) ->
  column (map f l) = map f l.
Proof.
  intros H. unfold column.
  assert (E : existsb is_float (map f l) = false).
  { induction l as [|st l IH]; simpl; [reflexivity|].
    rewrite (H st) by now left. simpl. apply IH. intros x Hx. apply H. now right. }
  now rewrite E.
Qed.

Lemma column_floats (f : frag_stage -> num) (l : list frag_stage) :
  (exists st, In st l /\ is_float (f st) = true) ->
  column (map f l) = map (fun st => Float (to_float (f st))) l.
Proof.
  intros (st & Hin & Hf). unfold column.
  assert (E : existsb is_float (map f l) = true).
  { apply existsb_exists. exists (f st). split; [now apply in_map | exact Hf]. }
  now rewrite E, map_map.
Qed.

(** A frame of rows taken from the log keeps its integers. *)
Lemma frag_frame_ints (l : list frag_stage) :
  (forall st, In st l -> exists r, st = stage_of_row r) -> frag_frame l = l.
Proof.
  intros H. unfold frag_frame.
  rewrite !column_ints, frag_rows_map.
  - rewrite <- (map_id l) at 2. apply map_ext. now intros [].
  - intros st Hst. destruct (H st Hst) as (r & ->). reflexivity.
  - intros st Hst. destruct (H st Hst) as (r & ->). reflexivity.
Qed.

(** With the row of means in it, both number columns are [float64]. *)
Lemma frag_frame_floats (l : list frag_stage) (name : string)
    (free largest index : float64) :
  frag_frame (l ++ [mkFragStage name (Float free) (Float largest) index]) =
  (map as_float_stage l ++ [mkFragStage name (Float free) (Float largest) index])%list.
Proof.
  unfold frag_frame.
  rewrite !column_floats, frag_rows_map.
  - rewrite map_app. reflexivity.
  - eexists. split; [apply in_elt | reflexivity].
  - eexists. split; [apply in_elt | reflexivity].
Qed.

Lemma has_event_nonempty (label : string) (df : table) :
  has_event label df = true -> df <> [].
Proof. intros H ->. discriminate. Qed.


(* ================================================================== *)
(** * Runs of the script *)

Lemma bind_outputs {A B} (P : output -> Prop) (m : script A) (f : A -> script B) :
  (forall o, In o (fst m) -> P o) ->
  (forall a, snd m = OK a -> forall o, In o (fst (f a)) -> P o) ->
  forall o, In o (fst (bind m f)) -> P o.
Proof.
  intros Hm Hf o. unfold bind. destruct m as [w [a|e]]; cbn [fst snd] in *.
  - specialize (Hf a eq_refl). destruct (f a) as [w' r]. cbn [fst] in *.
    rewrite in_app_iff. intros [H | H]; auto.
  - auto.
Qed.

Lemma bind_raises {A B} (m : script A) (f : A -> script B) :
  (forall a, snd m = OK a -> exists e, snd (f a) = Raise e) ->
  exists e, snd (bind m f) = Raise e.
Proof.
  intros Hf. unfold bind. destruct m as [w [a|e]]; cbn [snd] in *.
  - destruct (Hf a eq_refl) as (e & He). destruct (f a) as [w' r].
    exists e. exact He.
  - now exists e.
Qed.

Section Runs.

Variable plot : table -> result unit.
Variable render : output -> result unit.

Lemma write_outputs (name : string) (c : content) (o : output) :
  In o (fst (write render name c)) -> o = mkOutput name c.
Proof.
  unfold write. destruct (render (mkOutput name c)); cbn [fst].
  - intros [H | []]. now symmetry.
  - intros [].
Qed.


(** Whatever the library does, a run ends with an exception. *)
Lemma run_raises (df : table) :
  exists e, outcome (run plot render df) = Raise e.
Proof.
  unfold outcome, run. do 4 (apply bind_raises; intros ? _).
  now exists ValueError.
Qed.

(** The only file a run can write is the timeline chart. *)
Lemma run_outputs (df : table) (o : output) :
  In o (fst (run plot render df)) -> o = timeline.
Proof.
  unfold run. set (P := fun o : output => o = timeline).
  change (In o (fst (run plot render df)) -> P o). unfold run.
  apply bind_outputs with (P := P); [intros ? [] | intros ? _].
  apply bind_outputs with (P := P); [intros ? [] | intros ? _].
  apply bind_outputs with (P := P); [intros ? [] | intros ? _].
  apply bind_outputs with (P := P); [|intros ? _ ? []].
  intros x Hx. apply write_outputs in Hx. exact Hx.
Qed.

(** A run on an empty log stops at the lookup of line 61. *)
Lemma run_empty : plot [] = OK tt -> run plot render [] = ([], Raise IndexError).
Proof. intros H. unfold run. rewrite H. reflexivity. Qed.

(** A run on a log with at least one row stops at line 73, when the plotting
    calls before it return. *)
Lemma run_stops_at_73 (df : table) :
  df <> [] -> plot df = OK tt -> render timeline = OK tt ->
  run plot render df = ([timeline], Raise ValueError).
Proof.
  intros Hne Hp Hr. unfold run. rewrite gate_ops_memory_eq, Hp.
  destruct df as [|r df]; [contradiction|].
  cbn [lift bind iloc0 map]. unfold write. fold timeline. rewrite Hr. reflexivity.
Qed.

Lemma run_files (df : table) (f : string) :
  In f (files (run plot render df)) -> f = timeline_file.
Proof.
  unfold files. rewrite in_map_iff. intros (o & <- & Ho).
  apply run_outputs in Ho. now subst o.
Qed.

(** ** The pie-chart step *)




End Runs.

(* ================================================================== *)
(** * Sums of byte counts are exact *)

Lemma Zdigits2_shift (z k : Z) :
  0 < z -> 0 <= k -> Zdigits2 (z * 2 ^ k) = Zdigits2 z + k.
Proof.
  intros Hz Hk. pose proof (Zdigits2_bounds Hz) as B.
  pose proof (Zdigits2_pos Hz) as P.
  assert (Pk : 0 < 2 ^ k) by (apply Z.pow_pos_nonneg; lia).
  apply Zdigits2_unique; [|lia].
  replace (Zdigits2 z + k - 1) with (Zdigits2 z - 1 + k) by lia.
  rewrite !Z.pow_add_r by lia. nia.
Qed.

Lemma int_digits (z : Z) : 0 < z < 2 ^ 53 -> 1 <= Zdigits2 z <= 53.
Proof.
  intros Hz. pose proof (@Zdigits2_pos z ltac:(lia)).
  pose proof (@digits_le z 53 ltac:(lia) ltac:(lia) ltac:(lia)). lia.
Qed.

(** A mantissa and exponent that stand for the integer [z] round to the
    canonical form of [z]. *)
Lemma binary_round_int (s : bool) (M : positive) (E z : Z) :
  0 < z < 2 ^ 53 -> -900 <= E <= 0 -> Zpos M = z * 2 ^ (- E) ->
  binary_round prec emax s M E = canonical s z.
Proof.
  intros Hz HE HM. pose proof (int_digits Hz) as Dz.
  assert (DM : Zpos (digits2_pos M) = Zdigits2 z - E).
  { change (Zpos (digits2_pos M)) with (Zdigits2 (Zpos M)).
    rewrite HM, Zdigits2_shift by lia. lia. }
  assert (Hc : 0 < z * 2 ^ (53 - Zdigits2 z)).
  { apply Z.mul_pos_pos; [lia | apply Z.pow_pos_nonneg; lia]. }
  unfold canonical.
  destruct (Z.le_gt_cases (Zpos (digits2_pos M)) 53) as [Hd | Hd].
  - destruct (@binary_round_exact s M E) as (m & Em & _ & V); try lia.
    rewrite Em. f_equal; [|lia].
    apply Pos2Z.inj. rewrite Z2Pos.id by exact Hc.
    rewrite V, HM, DM, <- Z.mul_assoc, <- Z.pow_add_r by lia.
    do 2 f_equal. lia.
  - rewrite binary_round_long by lia.
    destruct (@binary_round_aux_normal s (Zpos M) E loc_Exact)
      as (m & e & r & Em & N & He & Hr & Hb & F1 & _);
      simpl Zdigits2; try lia.
    simpl Zdigits2 in He, Hr, Hb, F1.
    set (n := Zpos (digits2_pos M) - 53) in *.
    assert (Hn : 0 < n <= - E) by (unfold n; lia).
    assert (Pn : 0 < 2 ^ n) by (apply Z.pow_pos_nonneg; lia).
    assert (Split : Zpos M = z * 2 ^ (53 - Zdigits2 z) * 2 ^ n).
    { rewrite HM, <- Z.mul_assoc, <- Z.pow_add_r by lia.
      do 2 f_equal. unfold n. lia. }
    assert (Q : Zpos M / 2 ^ n = z * 2 ^ (53 - Zdigits2 z))
      by (rewrite Split; apply Z.div_mul; lia).
    assert (R : Zpos M mod 2 ^ n = 0)
      by (rewrite Split; apply Z.mod_mul; lia).
    rewrite R, Q in F1. specialize (F1 eq_refl ltac:(lia)).
    assert (Hlt : z * 2 ^ (53 - Zdigits2 z) < 2 ^ 53).
    { pose proof (@Zdigits2_bounds z ltac:(lia)) as B.
      replace (2 ^ 53) with (2 ^ Zdigits2 z * 2 ^ (53 - Zdigits2 z))
        by (rewrite <- Z.pow_add_r by lia; f_equal; lia).
      apply Z.mul_lt_mono_pos_r; [apply Z.pow_pos_nonneg; lia | lia]. }
    unfold normal_mantissa in N.
    assert (e = E + n).
    { destruct (Z.eq_dec e (E + n)) as [-> | Hne]; [reflexivity|].
      replace (e - (E + n)) with 1 in Hr by lia. change (2 ^ 1) with 2 in Hr. lia. }
    subst e. replace (E + n - (E + n)) with 0 in Hr by lia.
    change (2 ^ 0) with 1 in Hr.
    rewrite Em. f_equal; [|unfold n; lia].
    apply Pos2Z.inj. rewrite Z2Pos.id by exact Hc. lia.
Qed.

Lemma of_int64_canonical (z : Z) : 0 < z < 2 ^ 53 -> of_int64 z = canonical false z.
Proof.
  intros Hz. destruct z as [|p|p]; try lia.
  unfold of_int64, binary_normalize.
  apply binary_round_int; [exact Hz | lia | simpl; lia].
Qed.

Lemma canonical_mantissa_value (z : Z) :
  0 < z < 2 ^ 53 ->
  Zpos (Z.to_pos (z * 2 ^ (53 - Zdigits2 z))) = z * 2 ^ (53 - Zdigits2 z).
Proof.
  intros Hz. pose proof (int_digits Hz). apply Z2Pos.id.
  apply Z.mul_pos_pos; [lia | apply Z.pow_pos_nonneg; lia].
Qed.

(** Adding two integers whose sum is below [2^53] is exact. *)
Lemma fadd_of_int64 (a b : Z) :
  0 <= a -> 0 <= b -> a + b < 2 ^ 53 ->
  fadd (of_int64 a) (of_int64 b) = of_int64 (a + b).
Proof.
  intros Ha Hb Hs.
  destruct (Z.eq_dec a 0) as [-> | Na].
  { change (of_int64 0) with (S754_zero false). simpl (0 + b).
    destruct (Z.eq_dec b 0) as [-> | Nb]; [reflexivity|].
    rewrite of_int64_canonical by lia. reflexivity. }
  destruct (Z.eq_dec b 0) as [-> | Nb].
  { change (of_int64 0) with (S754_zero false). rewrite Z.add_0_r.
    rewrite of_int64_canonical by lia. reflexivity. }
  assert (Ha' : 0 < a < 2 ^ 53) by lia. assert (Hb' : 0 < b < 2 ^ 53) by lia.
  pose proof (int_digits Ha') as Da. pose proof (int_digits Hb') as Db.
  rewrite (of_int64_canonical Ha'), (of_int64_canonical Hb').
  rewrite (@of_int64_canonical (a + b)) by lia.
  unfold canonical at 1 2. unfold fadd, SFadd.
  set (ea := Zdigits2 a - 53). set (eb := Zdigits2 b - 53).
  set (ez := Z.min ea eb).
  assert (Hez : ez <= ea /\ ez <= eb /\ -52 <= ez <= 0) by (unfold ez, ea, eb; lia).
  rewrite !shl_align_fst by lia. cbn [cond_Zopp].
  rewrite !canonical_mantissa_value by lia.
  assert (V : a * 2 ^ (53 - Zdigits2 a) * 2 ^ (ea - ez) +
              b * 2 ^ (53 - Zdigits2 b) * 2 ^ (eb - ez) = (a + b) * 2 ^ (- ez)).
  { rewrite <- !Z.mul_assoc, <- !Z.pow_add_r by (unfold ea, eb in *; lia).
    replace (53 - Zdigits2 a + (ea - ez)) with (- ez) by (unfold ea; lia).
    replace (53 - Zdigits2 b + (eb - ez)) with (- ez) by (unfold eb; lia).
    ring. }
  rewrite V.
  assert (P : 0 < (a + b) * 2 ^ (- ez))
    by (apply Z.mul_pos_pos; [lia | apply Z.pow_pos_nonneg; lia]).
  destruct ((a + b) * 2 ^ (- ez)) as [|M|M] eqn:EM; try lia.
  unfold binary_normalize. apply binary_round_int; lia.
Qed.

Lemma fold_fadd_of_int64 (xs : list Z) (acc : Z) :
  0 <= acc -> Forall (fun x => 0 <= x) xs -> acc + total xs < 2 ^ 53 ->
  fold_left fadd (map of_int64 xs) (of_int64 acc) = of_int64 (acc + total xs).
Proof.
  revert acc. induction xs as [|x xs IH]; intros acc Hacc Hxs Hs; simpl in *.
  - now rewrite Z.add_0_r.
  - inversion Hxs as [|? ? Hx Hxs']; subst.
    assert (0 <= total xs).
    { clear -Hxs'. induction Hxs'; simpl; lia. }
    rewrite fadd_of_int64 by lia. rewrite IH by (try assumption; lia).
    f_equal. lia.
Qed.

Lemma total_perm (xs ys : list Z) : Permutation xs ys -> total xs = total ys.
Proof. induction 1; simpl; lia. Qed.

Lemma total_app (xs ys : list Z) : total (xs ++ ys) = total xs + total ys.
Proof. induction xs; simpl; lia. Qed.

Lemma total_nonneg (xs : list Z) : Forall (fun x => 0 <= x) xs -> 0 <= total xs.
Proof. induction 1; simpl; lia. Qed.

Lemma fsum_in_exact (t : bracketing) :
  Forall (fun x => 0 <= x) (terms t) -> total (terms t) < 2 ^ 53 ->
  fsum_in t = of_int64 (total (terms t)).
Proof.
  induction t as [x | l IHl r IHr]; simpl; intros Hp Hs.
  - now rewrite Z.add_0_r.
  - apply Forall_app in Hp. destruct Hp as (Hl & Hr).
    rewrite total_app in *.
    pose proof (total_nonneg Hl). pose proof (total_nonneg Hr).
    rewrite IHl, IHr by (try assumption; lia).
    apply fadd_of_int64; lia.
Qed.

(** The mean of byte counts whose total is below [2^53]. *)
Lemma mean_total (xs : list Z) :
  xs <> [] -> Forall (fun x => 0 <= x) xs -> total xs < 2 ^ 53 ->
  mean xs = fdiv (of_int64 (total xs)) (of_int64 (Z.of_nat (List.length xs))).
Proof.
  intros Hne Hl Hs. unfold mean, fmean.
  destruct xs as [|x l]; [contradiction|].
  change (map of_int64 (x :: l)) with (of_int64 x :: map of_int64 l).
  rewrite <- (map_cons of_int64 x l).
  unfold fsum. change (S754_zero false) with (of_int64 0).
  rewrite fold_fadd_of_int64 by (try assumption; lia).
  now rewrite length_map.
Qed.

(** X9.  On a column of byte counts that add up to less than [2^53], no
    partial sum is rounded: the mean is the [float64] quotient of the exact
    total by the number of rows, so it does not depend on the order of the
    rows or on the order and bracketing in which the values are added. *)
Theorem mean_of_byte_counts (xs : list Z) :
  xs <> [] -> Forall (fun x => 0 <= x) xs -> total xs < 2 ^ 53 ->
  mean xs = fdiv (of_int64 (total xs)) (of_int64 (Z.of_nat (List.length xs))) /\
  (forall ys, Permutation xs ys -> mean ys = mean xs) /\
  (forall t, Permutation xs (terms t) ->
     fdiv (fsum_in t) (of_int64 (Z.of_nat (List.length xs))) = mean xs).
Proof.
  assert (M : forall l, l <> [] -> Forall (fun x => 0 <= x) l -> total l < 2 ^ 53 ->
            mean l = fdiv (of_int64 (total l)) (of_int64 (Z.of_nat (List.length l)))).
  { intros l Hne Hl Hs. unfold mean, fmean.
    destruct l as [|x l]; [contradiction|].
    change (map of_int64 (x :: l)) with (of_int64 x :: map of_int64 l).
    rewrite <- (map_cons of_int64 x l).
    unfold fsum. change (S754_zero false) with (of_int64 0).
    rewrite fold_fadd_of_int64 by (try assumption; lia).
    now rewrite length_map. }
  intros Hne Hxs Hs. split; [apply M; assumption|]. split.
  - intros ys Hp. rewrite !M; try assumption.
    + now rewrite (total_perm Hp), (Permutation_length Hp).
    + intros ->. apply Permutation_sym, Permutation_nil in Hp. contradiction.
    + eapply Permutation_Forall; eassumption.
    + now rewrite <- (total_perm Hp).
  - intros t Hp. rewrite M by assumption.
    rewrite fsum_in_exact.
    + now rewrite <- (total_perm Hp).
    + eapply Permutation_Forall; eassumption.
    + now rewrite <- (total_perm Hp).
Qed.

Lemma mean_of_byte_counts_witness :
  mean [100; 300; 300] = fdiv (of_int64 700) (of_int64 3) /\
  mean [300; 100; 300] = mean [100; 300; 300] /\
  fdiv (fsum_in (Plus (Term 300) (Plus (Term 100) (Term 300)))) (of_int64 3) =
  mean [100; 300; 300].
Proof.
  destruct (@mean_of_byte_counts [100; 300; 300]) as (H1 & H2 & H3).
  - discriminate.
  - repeat constructor; lia.
  - simpl. lia.
  - split; [exact H1|]. split; [apply H2 | apply (H3 (Plus (Term 300) (Plus (Term 100) (Term 300))))];
      apply perm_swap.
Defined.

(* ================================================================== *)

Lemma first_row_In (label : string) (df : table) (r : row) :
  first_row label df r -> In r df.
Proof. intros (pre & post & -> & _). apply in_elt. Qed.

Lemma first_row_valid (label : string) (df : table) (r : row) :
  valid_table df -> first_row label df r -> byte_count (free_heap r).
Proof.
  intros Hv Hr. apply first_row_In in Hr.
  unfold valid_table in Hv. rewrite Forall_forall in Hv. apply (Hv r Hr).
Qed.

(** C5.  The summary's WiFi, Servo and MQTT rows hold the [free_heap] of the
    first row labelled exactly ["Before <Name> init"] and of the first row
    labelled exactly ["After <Name> init"], and building the summary raises
    [IndexError] when one of these six labels is missing.  A run of the
    script does not get to the lookups: on a log with a missing label it
    ends with an exception, as the claim says, but having written no summary
    and without reaching them; when the plotting calls return, the exception
    is the [ValueError] of line 73 and the timeline chart is the one file
    written. *)
Theorem init_summary_lookups (plot : table -> result unit)
    (render : output -> result unit) (df : table) :
  (forall s, init_summary df = OK s ->
     exists bw aw bs as_ bm am wifi servo mqtt total,
       first_row "Before WiFi init" df bw /\ first_row "After WiFi init" df aw /\
       first_row "Before Servo init" df bs /\ first_row "After Servo init" df as_ /\
       first_row "Before MQTT init" df bm /\ first_row "After MQTT init" df am /\
       s = [wifi; servo; mqtt; total] /\
       operation wifi = "WiFi Init" /\
       before_bytes wifi = free_heap bw /\ after_bytes wifi = free_heap aw /\
       operation servo = "Servo Init" /\
       before_bytes servo = free_heap bs /\ after_bytes servo = free_heap as_ /\
       operation mqtt = "MQTT Init" /\
       before_bytes mqtt = free_heap bm /\ after_bytes mqtt = free_heap am) /\
  (forall label, In label init_labels -> has_event label df = false ->
     init_summary df = Raise IndexError /\
     (exists e, outcome (run plot render df) = Raise e) /\
     (forall f, In f (files (run plot render df)) -> f = timeline_file) /\
     (plot df = OK tt -> render timeline = OK tt ->
      run plot render df =
      match df with
      | [] => ([], Raise IndexError)
      | _ :: _ => ([timeline], Raise ValueError)
      end)).
Proof.
  split.
  - intros s Hs. apply init_summary_inv in Hs.
    destruct Hs as (b1 & b2 & b3 & a1 & a2 & a3 & B1 & B2 & B3 & A1 & A2 & A3 & ->).
    apply first_free_heap_OK in B1, B2, B3, A1, A2, A3.
    destruct B1 as (bw & ? & ->), B2 as (bs & ? & ->), B3 as (bm & ? & ->).
    destruct A1 as (aw & ? & ->), A2 as (as_ & ? & ->), A3 as (am & ? & ->).
    exists bw, aw, bs, as_, bm, am. unfold init_table.
    do 4 eexists. repeat (split; [eassumption || reflexivity|]). reflexivity.
  - intros label Hl Habs.
    split; [exact (@init_summary_absent df label Hl Habs)|].
    split; [apply run_raises|]. split; [apply run_files|].
    intros Hp Hr. destruct df as [|r df].
    + now apply run_empty.
    + apply run_stops_at_73; [discriminate | assumption | assumption].
Qed.

Lemma init_summary_lookups_witness :
  init_summary mqtt_only_log = Raise IndexError /\
  run plot_draws render_saves mqtt_only_log = ([timeline], Raise ValueError).
Proof.
  destruct (init_summary_lookups plot_draws render_saves mqtt_only_log) as (_ & H).
  destruct (H "Before WiFi init") as (H1 & _ & _ & H2);
    [simpl; tauto | reflexivity |].
  split; [exact H1|]. apply H2; reflexivity.
Defined.

Lemma init_table_In (b1 b2 b3 a1 a2 a3 : Z) (r : init_row) :
  In r (init_table b1 b2 b3 a1 a2 a3) ->
  delta_bytes r = sub64 (before_bytes r) (after_bytes r) /\
  pct_of_initial r = pct_of (delta_bytes r) b1 /\
  (before_bytes r = b1 \/ before_bytes r = b2 \/ before_bytes r = b3) /\
  (after_bytes r = a1 \/ after_bytes r = a2 \/ after_bytes r = a3).
Proof.
  unfold init_table. simpl.
  intros [<- | [<- | [<- | [<- | []]]]]; simpl; tauto.
Qed.

(** C6.  Every row of the summary has [Delta = Before - After] (an [int64]
    difference, exact on byte counts) and
    [% of Initial Memory = Delta / Before(first row) * 100] in [float64],
    where the first row's Before is the [free_heap] at ["Before WiFi init"];
    with 100000 before and 95000 after WiFi init, the WiFi row has delta
    5000 and percentage [5000 / 100000 * 100], which is [5.0]. *)
Theorem init_summary_delta_pct (df : table) (s : list init_row) :
  init_summary df = OK s ->
  exists wifi bw,
    hd_error s = Some wifi /\ operation wifi = "WiFi Init" /\
    first_row "Before WiFi init" df bw /\ before_bytes wifi = free_heap bw /\
    (forall r, In r s ->
       delta_bytes r = sub64 (before_bytes r) (after_bytes r) /\
       (valid_table df -> delta_bytes r = before_bytes r - after_bytes r) /\
       pct_of_initial r =
         fmul (fdiv (of_int64 (delta_bytes r)) (of_int64 (before_bytes wifi)))
              (of_int64 100)) /\
    (first_free_heap "Before WiFi init" df = OK 100000 ->
     first_free_heap "After WiFi init" df = OK 95000 ->
     delta_bytes wifi = 5000 /\
     pct_of_initial wifi = fmul (fdiv (of_int64 5000) (of_int64 100000)) (of_int64 100) /\
     pct_of_initial wifi = of_int64 5).
Proof.
  intros Hs. apply init_summary_inv in Hs.
  destruct Hs as (b1 & b2 & b3 & a1 & a2 & a3 & B1 & B2 & B3 & A1 & A2 & A3 & ->).
  pose proof (first_free_heap_OK _ _ B1) as (bw & Hbw & Ebw).
  eexists _, bw. split; [reflexivity|]. split; [reflexivity|].
  split; [exact Hbw|]. split; [exact Ebw|]. split.
  - intros r Hr. apply init_table_In in Hr.
    destruct Hr as (Hd & Hp & Hb & Ha). split; [exact Hd|]. split; [|exact Hp].
    intros Hv. rewrite Hd. apply sub64_byte_counts.
    + apply first_free_heap_OK in B1, B2, B3.
      destruct B1 as (x1 & X1 & ->), B2 as (x2 & X2 & ->), B3 as (x3 & X3 & ->).
      destruct Hb as [-> | [-> | ->]]; eapply first_row_valid; eauto.
    + apply first_free_heap_OK in A1, A2, A3.
      destruct A1 as (x1 & X1 & ->), A2 as (x2 & X2 & ->), A3 as (x3 & X3 & ->).
      destruct Ha as [-> | [-> | ->]]; eapply first_row_valid; eauto.
  - intros Hb Ha. rewrite B1 in Hb. rewrite A1 in Ha.
    inversion Hb; inversion Ha; subst b1 a1. simpl.
    repeat split; vm_compute; reflexivity.
Qed.

Lemma init_summary_delta_pct_witness :
  exists s wifi,
    init_summary boot_log = OK s /\ hd_error s = Some wifi /\
    delta_bytes wifi = 5000 /\ pct_of_initial wifi = of_int64 5.
Proof.
  destruct (init_summary boot_log) as [s|] eqn:E; [|discriminate E].
  destruct (init_summary_delta_pct boot_log E)
    as (wifi & bw & Hhd & _ & _ & _ & _ & Hex).
  destruct Hex as (Hd & _ & Hp); [reflexivity | reflexivity |].
  exists s, wifi. repeat split; assumption.
Defined.

Lemma with_event_skip (label : string) (pre post : table) (r : row) :
  event r <> label ->
  with_event label (pre ++ r :: post) = with_event label (pre ++ post).
Proof.
  intros H. unfold with_event. rewrite !filter_app. simpl.
  apply String.eqb_neq in H. now rewrite H.
Qed.

(** C9.  The ["Total System Init"] row takes its Before from the first row
    labelled exactly ["Before WiFi init"] and its After from the first row
    labelled exactly ["After MQTT init"], so its Delta is the difference of
    these two (an [int64] difference, exact on byte counts); rows with any
    other label, ["Total System Init"] included, are never looked at. *)
Theorem total_system_init_row (df : table) (s : list init_row) :
  init_summary df = OK s ->
  (exists bw am total,
     first_row "Before WiFi init" df bw /\ first_row "After MQTT init" df am /\
     nth_error s 3 = Some total /\ List.length s = 4%nat /\
     operation total = "Total System Init" /\
     before_bytes total = free_heap bw /\ after_bytes total = free_heap am /\
     delta_bytes total = sub64 (free_heap bw) (free_heap am) /\
     (valid_table df -> delta_bytes total = free_heap bw - free_heap am)) /\
  (forall pre post r,
     df = (pre ++ post)%list -> ~ In (event r) init_labels ->
     init_summary (pre ++ r :: post) = OK s).
Proof.
  intros Hs. split.
  - apply init_summary_inv in Hs.
    destruct Hs as (b1 & b2 & b3 & a1 & a2 & a3 & B1 & _ & _ & _ & _ & A3 & ->).
    apply first_free_heap_OK in B1, A3.
    destruct B1 as (bw & Hbw & ->), A3 as (am & Ham & ->).
    exists bw, am. eexists. split; [exact Hbw|]. split; [exact Ham|].
    split; [reflexivity|]. simpl. repeat (split; [reflexivity|]).
    intros Hv. apply sub64_byte_counts; eapply first_row_valid; eauto.
  - intros pre post r -> Hr. rewrite <- Hs.
    assert (E : forall label, In label init_labels ->
              first_free_heap label (pre ++ r :: post) =
              first_free_heap label (pre ++ post)).
    { intros label Hl. unfold first_free_heap. rewrite with_event_skip; [reflexivity|].
      intros <-. contradiction. }
    unfold init_summary. rewrite !E by (simpl; tauto). reflexivity.
Qed.

Lemma total_system_init_row_witness :
  exists s total,
    init_summary boot_log = OK s /\ nth_error s 3 = Some total /\
    delta_bytes total = 10000 /\
    init_summary (sample "Total System Init" 1 2 3 :: boot_log) = OK s.
Proof.
  destruct (init_summary boot_log) as [s|] eqn:E; [|discriminate E].
  destruct (total_system_init_row boot_log E) as ((bw & am & total & H) & Hfr).
  destruct H as (Hbw & Ham & Hn & _ & _ & _ & _ & _ & Hd).
  exists s, total. split; [reflexivity|]. split; [exact Hn|]. split.
  - rewrite Hd.
    + rewrite (first_row_unique Hbw (r' := sample "Before WiFi init" 100000 10000 90000)).
      * rewrite (first_row_unique Ham (r' := sample "After MQTT init" 90000 20000 70000)).
        -- reflexivity.
        -- exists (firstn 5 boot_log), []. repeat split.
           intros x Hx. simpl in Hx.
           repeat (destruct Hx as [<- | Hx]; [discriminate|]). destruct Hx.
      * exists [], (skipn 1 boot_log). repeat split. intros x [].
    + unfold valid_table, boot_log, valid_row, byte_count, int64_max.
      repeat constructor; simpl; lia.
  - apply (Hfr [] boot_log); [reflexivity|].
    simpl. intros H. repeat (destruct H as [H | H]; [discriminate H|]). exact H.
Defined.

Lemma gate_log_valid : valid_table gate_log.
Proof.
  unfold valid_table, gate_log, valid_row, byte_count, int64_max.
  repeat constructor; simpl; lia.
Qed.

Lemma init_data_rows_witness :
  In (sample "Before open entry gate" 100 5 50) (init_data gate_log).
Proof.
  apply (proj2 (init_data_rows gate_log (sample "Before open entry gate" 100 5 50)));
    [simpl; tauto | reflexivity].
Defined.

Lemma gate_ops_memory_pairs_witness :
  exists g o,
    gate_ops_memory gate_log = OK g /\ List.length g = 3%nat /\
    nth_error g 0 = Some o /\ free_heap_before o = 100 /\ free_heap_after o = 90.
Proof.
  destruct (gate_ops_memory_pairs gate_log)
    as (g & Hg & _ & _ & _ & Hrows & H53).
  assert (Hlen : List.length g = 3%nat) by (apply H53; reflexivity).
  destruct (Hrows 0%nat) as (o & b & a & Ho & Hb & Ha & _ & Hfb & Hfa & _);
    [rewrite Hlen; lia|].
  exists g, o. split; [exact Hg|]. split; [exact Hlen|]. split; [exact Ho|].
  rewrite Hfb, Hfa. vm_compute in Hb, Ha.
  inversion Hb; inversion Ha. split; reflexivity.
Defined.

Lemma gate_ops_memory_deltas_witness :
  exists g,
    gate_ops_memory gate_log = OK g /\
    forall o, In o g ->
      memory_used o = free_heap_before o - free_heap_after o /\
      allocation_increase o = allocated_after o - allocated_before o.
Proof.
  destruct (gate_ops_memory_deltas gate_log) as (g & Hg & _ & Hd & _).
  exists g. split; [exact Hg | exact (Hd gate_log_valid)].
Defined.

(* ================================================================== *)
(** * The pie-chart step *)




(* ================================================================== *)
(** * An empty gate-operation set *)

Lemma gate_ops_memory_empty (df : table) :
  gate_ops df = [] -> gate_ops_memory df = OK [].
Proof.
  intros H. rewrite gate_ops_memory_eq.
  unfold gate_ops_before, gate_ops_after. now rewrite H.
Qed.

Lemma frag_summary_no_gate (df : table) :
  gate_ops df = [] -> frag_summary df = OK (init_stages df).
Proof.
  intros H. unfold frag_summary. rewrite frag_stages_eq, H. cbn [rbind].
  now rewrite frag_frame_ints by apply init_stages_int.
Qed.

Lemma init_stages_not_during (df : table) (st : frag_stage) :
  In st (init_stages df) -> stage st <> "During Operations".
Proof.
  intros Hst E. apply init_stages_label in Hst. rewrite E in Hst.
  intuition discriminate.
Qed.

(** C8, as the code has it.  With no gate row, [gate_ops_memory] is built and
    has no rows, the operation summary is the single ["Average"] row of NaN
    means and the fragmentation summary has no ["During Operations"] row:
    none of these raises.  The program does not complete for all that: a run
    ends with an exception whatever the log, at line 73 with [ValueError]
    when the plotting calls return, and of the unconditional files it has
    written the timeline chart at most. *)
Theorem empty_gate_ops (plot : table -> result unit)
    (render : output -> result unit) (df : table) :
  gate_ops df = [] ->
  gate_ops_memory df = OK [] /\
  operation_summary [] = empty_operation_summary /\
  (exists rows, frag_summary df = OK rows /\
     forall st, In st rows -> stage st <> "During Operations") /\
  (exists e, outcome (run plot render df) = Raise e) /\
  (forall f, In f unconditional_files -> f <> timeline_file ->
     ~ In f (files (run plot render df))) /\
  (plot df = OK tt -> render timeline = OK tt ->
   run plot render df =
   match df with
   | [] => ([], Raise IndexError)
   | _ :: _ => ([timeline], Raise ValueError)
   end).
Proof.
  intros Hg. split; [now apply gate_ops_memory_empty|]. split; [reflexivity|].
  split; [|split; [|split]].
  - exists (init_stages df). split; [now apply frag_summary_no_gate|].
    apply init_stages_not_during.
  - apply run_raises.
  - intros f _ Hf Hin. apply run_files in Hin. contradiction.
  - intros Hp Hr. destruct df as [|r df].
    + now apply run_empty.
    + apply run_stops_at_73; [discriminate | assumption | assumption].
Qed.

Lemma empty_gate_ops_witness :
  gate_ops_memory boot_log = OK [] /\
  run plot_draws render_saves boot_log = ([timeline], Raise ValueError).
Proof.
  destruct (@empty_gate_ops plot_draws render_saves boot_log)
    as (H1 & _ & _ & _ & _ & H2); [reflexivity|].
  split; [exact H1|]. apply H2; reflexivity.
Defined.

(* ================================================================== *)
(** * The row of means *)

Lemma total_ge_length (xs : list Z) :
  Forall (fun x => 0 < x) xs -> Z.of_nat (List.length xs) <= total xs.
Proof.
  induction 1 as [|x xs Hx _ IH]; [simpl; lia|].
  cbn [List.length total fold_right]. fold (total xs). lia.
Qed.

Lemma positive_nonneg (xs : list Z) :
  Forall (fun x => 0 < x) xs -> Forall (fun x => 0 <= x) xs.
Proof. apply Forall_impl. intros; lia. Qed.

(** The quotient of two positive integers below [2^53] is not zero. *)
Lemma fdiv_positive (a b : Z) :
  0 < a < 2 ^ 53 -> 0 < b < 2 ^ 53 ->
  exists m e, fdiv (of_int64 a) (of_int64 b) = S754_finite false m e.
Proof.
  intros Ha Hb.
  destruct (@of_int64_pos a) as (ma & ea & -> & Na & Ea & _);
    [unfold int64_max; lia|].
  destruct (@of_int64_pos b) as (mb & eb & -> & Nb & Eb & _);
    [unfold int64_max; lia|].
  destruct (@fdiv_normal ma mb ea eb) as (m & e & E & _); try assumption; try lia.
  now exists m, e.
Qed.

(** The means of gate rows with a positive free heap, and the index. *)
Lemma gate_ops_avg_exact (df : table) :
  gate_ops df <> [] ->
  (forall r, In r (gate_ops df) -> 0 < free_heap r /\ 0 <= largest_free_block r) ->
  total (map free_heap (gate_ops df)) < 2 ^ 53 ->
  total (map largest_free_block (gate_ops df)) < 2 ^ 53 ->
  gate_ops_avg df = OK (during_operations (gate_ops df)).
Proof.
  intros Hne Hv HF HL. unfold gate_ops_avg, during_operations.
  set (g := gate_ops df) in *. clearbody g.
  assert (PF : Forall (fun x => 0 < x) (map free_heap g)).
  { apply Forall_forall. intros x Hx. apply in_map_iff in Hx.
    destruct Hx as (r & <- & Hr). apply (Hv r Hr). }
  assert (PL : Forall (fun x => 0 <= x) (map largest_free_block g)).
  { apply Forall_forall. intros x Hx. apply in_map_iff in Hx.
    destruct Hx as (r & <- & Hr). apply (Hv r Hr). }
  assert (Hn : 0 < Z.of_nat (List.length g)) by (destruct g; [contradiction | simpl; lia]).
  pose proof (total_ge_length PF) as Hle. rewrite length_map in Hle.
  rewrite !mean_total, !length_map;
    try assumption; try (now apply positive_nonneg);
    try (intros E; apply map_eq_nil in E; contradiction).
  destruct (@fdiv_positive (total (map free_heap g)) (Z.of_nat (List.length g)))
    as (m & e & E); [lia | lia|].
  unfold py_div. rewrite E. reflexivity.
Qed.

(** Gate rows that all report an empty heap. *)
Lemma gate_ops_avg_zero (df : table) :
  gate_ops df <> [] ->
  (forall r, In r (gate_ops df) -> free_heap r = 0) ->
  Z.of_nat (List.length (gate_ops df)) < 2 ^ 53 ->
  gate_ops_avg df = Raise ZeroDivisionError.
Proof.
  intros Hne Hz Hn. unfold gate_ops_avg. set (g := gate_ops df) in *. clearbody g.
  assert (Z0 : Forall (fun x => x = 0) (map free_heap g)).
  { apply Forall_forall. intros x Hx. apply in_map_iff in Hx.
    destruct Hx as (r & <- & Hr). apply (Hz r Hr). }
  assert (T : total (map free_heap g) = 0).
  { clear -Z0. induction Z0 as [|x xs Hx _ IH]; [reflexivity|].
    cbn [total fold_right]. fold (total xs). lia. }
  rewrite (@mean_total (map free_heap g)).
  - rewrite T, length_map.
    destruct (@of_int64_pos (Z.of_nat (List.length g))) as (m & e & -> & _).
    { unfold int64_max. destruct g; [contradiction|]. simpl List.length in *. lia. }
    reflexivity.
  - intros E. apply map_eq_nil in E. contradiction.
  - eapply Forall_impl; [|exact Z0]. intros a Ha. cbv beta in Ha. lia.
  - rewrite T. lia.
Qed.

Lemma frag_summary_gate (df : table) (avg : frag_stage) :
  gate_ops df <> [] -> gate_ops_avg df = OK avg ->
  frag_summary df = OK (map as_float_stage (init_stages df) ++ [avg]).
Proof.
  intros Hne Havg. unfold frag_summary. rewrite frag_stages_eq, Havg.
  destruct (gate_ops df); [contradiction|]. cbn [rbind].
  unfold gate_ops_avg in Havg.
  destruct (py_div _ _) as [q|]; [|discriminate Havg].
  cbn [rbind] in Havg. inversion Havg. now rewrite frag_frame_floats.
Qed.

Lemma frag_summary_raises (df : table) (e : exn) :
  gate_ops df <> [] -> gate_ops_avg df = Raise e -> frag_summary df = Raise e.
Proof.
  intros Hne Havg. unfold frag_summary. rewrite frag_stages_eq, Havg.
  destruct (gate_ops df); [contradiction | reflexivity].
Qed.

Lemma as_float_stage_label (st : frag_stage) : stage (as_float_stage st) = stage st.
Proof. reflexivity. Qed.

(** C10.  The ["During Operations"] row is the last row of the fragmentation
    summary when there is a gate row and is absent otherwise.  For gate rows
    with a positive free heap and column totals below [2^53], its two number
    cells are the means [total / count] of [free_heap] and
    [largest_free_block] over the gate rows and its index is
    [(1 - mean(largest_free_block) / mean(free_heap)) * 100], which is not
    the mean of the rows' own indices: one gate operation with indices 50 and
    0 gets 12.5, not 25. *)
Theorem during_operations_row (df : table) :
  (forall r, In r (gate_ops df) -> 0 < free_heap r /\ 0 <= largest_free_block r) ->
  total (map free_heap (gate_ops df)) < 2 ^ 53 ->
  total (map largest_free_block (gate_ops df)) < 2 ^ 53 ->
  (gate_ops df = [] ->
   frag_summary df = OK (init_stages df) /\
   forall st, In st (init_stages df) -> stage st <> "During Operations") /\
  (gate_ops df <> [] ->
   exists mean_free mean_largest,
     mean_free = fdiv (of_int64 (total (map free_heap (gate_ops df))))
                      (of_int64 (Z.of_nat (List.length (gate_ops df)))) /\
     mean_largest = fdiv (of_int64 (total (map largest_free_block (gate_ops df))))
                         (of_int64 (Z.of_nat (List.length (gate_ops df)))) /\
     frag_summary df =
       OK (map as_float_stage (init_stages df) ++
           [mkFragStage "During Operations" (Float mean_free) (Float mean_largest)
              (fmul (fsub (of_int64 1) (fdiv mean_largest mean_free))
                    (of_int64 100))]) /\
     forall st, In st (map as_float_stage (init_stages df)) ->
                stage st <> "During Operations") /\
  (exists avg,
     frag_summary one_gate_log = OK [avg] /\
     stage_fragmentation_index avg = fdiv (of_int64 25) (of_int64 2) /\
     mean_of_row_indices one_gate_log = of_int64 25).
Proof.
  intros Hv HF HL. split; [|split].
  - intros Hg. split; [now apply frag_summary_no_gate | apply init_stages_not_during].
  - intros Hne. eexists _, _. split; [reflexivity|]. split; [reflexivity|]. split.
    + apply frag_summary_gate; [exact Hne|].
      now apply gate_ops_avg_exact.
    + intros st Hst. apply in_map_iff in Hst. destruct Hst as (x & <- & Hx).
      rewrite as_float_stage_label. exact (@init_stages_not_during df x Hx).
  - eexists. split; [vm_compute; reflexivity|]. split; vm_compute; reflexivity.
Qed.

Lemma during_operations_row_witness :
  frag_summary boot_log = OK (init_stages boot_log) /\
  exists rows avg,
    frag_summary full_log = OK (rows ++ [avg]) /\
    stage avg = "During Operations" /\
    stage_free_heap avg = Float (fdiv (of_int64 1910) (of_int64 8)).
Proof.
  split.
  - destruct (during_operations_row boot_log) as (H & _).
    + intros r [].
    + simpl. lia.
    + simpl. lia.
    + apply H. reflexivity.
  - destruct (during_operations_row full_log) as (_ & H & _).
    + intros r Hr. vm_compute in Hr.
      repeat (destruct Hr as [<- | Hr]; [simpl; lia|]). destruct Hr.
    + vm_compute. reflexivity.
    + vm_compute. reflexivity.
    + destruct H as (mf & ml & Hf & _ & Hs & _); [vm_compute; discriminate|].
      eexists _, _. split; [exact Hs|]. split; [reflexivity|].
      cbn [stage_free_heap]. rewrite Hf. reflexivity.
Defined.

(* ================================================================== *)
(** * More on the row selections *)

Lemma substring_of_trans (a b s : string) :
  substring_of a b -> substring_of b s -> substring_of a s.
Proof.
  intros (p1 & q1 & ->) (p2 & q2 & ->).
  exists (p2 ++ p1)%string, (q1 ++ q2)%string.
  now rewrite !append_assoc.
Qed.

Lemma lang_pat_gate (w : string) :
  lang pat_gate w <->
  w = "Before open entry gate" \/ w = "After open entry gate" \/
  w = "Before close entry gate" \/ w = "After close entry gate".
Proof.
  unfold pat_gate. simpl. split.
  - intros [(u & v & -> & [-> | ->] & ->) | (u & v & -> & [-> | ->] & ->)];
      simpl; auto.
  - intros [-> | [-> | [-> | ->]]];
      [left; exists "Before", " open entry gate"
      |left; exists "After", " open entry gate"
      |right; exists "Before", " close entry gate"
      |right; exists "After", " close entry gate"]; auto.
Qed.

Lemma contains_pat_gate (s : string) :
  str_contains pat_gate s = true <->
  substring_of "Before open entry gate" s \/ substring_of "After open entry gate" s \/
  substring_of "Before close entry gate" s \/ substring_of "After close entry gate" s.
Proof.
  unfold str_contains. rewrite search_spec. unfold substring_of. split.
  - intros (pre & w & post & Hw & ->). apply lang_pat_gate in Hw.
    destruct Hw as [-> | [-> | [-> | ->]]];
      [left | right; left | right; right; left | right; right; right];
      now exists pre, post.
  - intros [H | [H | [H | H]]]; destruct H as (pre & post & ->);
      eexists pre, _, post; (split; [apply lang_pat_gate | reflexivity]); auto.
Qed.

Lemma contains_before_or_after (s : string) :
  str_contains pat_before_or_after s = true <->
  substring_of "Before" s \/ substring_of "After" s.
Proof.
  unfold str_contains, pat_before_or_after. rewrite search_spec.
  unfold substring_of. simpl. split.
  - intros (pre & w & post & [-> | ->] & ->); [left | right]; now exists pre, post.
  - intros [(pre & post & ->) | (pre & post & ->)];
      [exists pre, "Before", post | exists pre, "After", post]; auto.
Qed.

(** A gate event names its phase. *)
Lemma gate_event_phase (s : string) :
  str_contains pat_gate s = true ->
  str_contains pat_before s = true \/ str_contains pat_after s = true.
Proof.
  intros H. apply contains_pat_gate in H. unfold str_contains, pat_before, pat_after.
  rewrite !search_lit.
  destruct H as [H | [H | [H | H]]]; [left | right | left | right];
    (eapply substring_of_trans; [|exact H]).
  - now exists "", " open entry gate".
  - now exists "", " open entry gate".
  - now exists "", " close entry gate".
  - now exists "", " close entry gate".
Qed.

(** X1.  The gate rows are exactly the rows whose event contains one of the
    four phrases ["Before open entry gate"], ["After open entry gate"],
    ["Before close entry gate"], ["After close entry gate"]; all of them, and
    all the rows of [init_data], are among the rows selected for step 2. *)
Theorem gate_ops_rows (df : table) (r : row) :
  (In r (gate_ops df) <->
   In r df /\
   (substring_of "Before open entry gate" (event r) \/
    substring_of "After open entry gate" (event r) \/
    substring_of "Before close entry gate" (event r) \/
    substring_of "After close entry gate" (event r))) /\
  (In r (init_events df) <->
   In r df /\ (substring_of "Before" (event r) \/ substring_of "After" (event r))) /\
  (In r (gate_ops df) -> In r (init_events df)) /\
  (In r (init_data df) -> In r (init_events df)).
Proof.
  assert (G : In r (gate_ops df) <->
     In r df /\
     (substring_of "Before open entry gate" (event r) \/
      substring_of "After open entry gate" (event r) \/
      substring_of "Before close entry gate" (event r) \/
      substring_of "After close entry gate" (event r))).
  { unfold gate_ops. rewrite select_In, contains_pat_gate. reflexivity. }
  assert (E : In r (init_events df) <->
     In r df /\ (substring_of "Before" (event r) \/ substring_of "After" (event r))).
  { unfold init_events. rewrite select_In, contains_before_or_after. reflexivity. }
  split; [exact G|]. split; [exact E|]. split.
  - intros H. unfold gate_ops in H. apply select_In in H. destruct H as (Hin & Hg).
    apply E. split; [exact Hin|].
    apply gate_event_phase in Hg. unfold str_contains, pat_before, pat_after in Hg.
    rewrite !search_lit in Hg. exact Hg.
  - intros H. unfold init_data in H. apply select_In in H. destruct H as (Hin & Hi).
    apply E. split; [exact Hin|]. apply contains_pat_init in Hi.
    destruct Hi as [H | [H | [H | H]]]; [left; exact H | right | right | right];
      (eapply substring_of_trans; [|exact H]).
    + now exists "", " WiFi init".
    + now exists "", " MQTT init".
    + now exists "", " Servo init".
Qed.

Lemma gate_ops_rows_witness :
  In (sample "After open entry gate" 90 7 40) (init_events gate_log).
Proof.
  apply (proj1 (proj2 (proj2 (gate_ops_rows gate_log
                                 (sample "After open entry gate" 90 7 40))))).
  simpl. tauto.
Defined.

Lemma filter_cover {A} (p q : A -> bool) (l : list A) :
  (forall x, In x l -> p x = true \/ q x = true) ->
  (List.length l <= List.length (filter p l) + List.length (filter q l))%nat.
Proof.
  induction l as [|x l IH]; intros H; simpl; [lia|].
  assert (IH' := IH (fun y Hy => H y (or_intror Hy))).
  destruct (H x (or_introl eq_refl)) as [Hx | Hx]; rewrite Hx;
    destruct (p x), (q x); simpl; lia.
Qed.

Lemma filter_partition {A} (p q : A -> bool) (l : list A) :
  (forall x, In x l -> p x = true \/ q x = true) ->
  (forall x, In x l -> p x = true -> q x = true -> False) ->
  (List.length (filter p l) + List.length (filter q l) = List.length l)%nat.
Proof.
  induction l as [|x l IH]; intros H N; simpl; [lia|].
  assert (IH' := IH (fun y Hy => H y (or_intror Hy))
                    (fun y Hy => N y (or_intror Hy))).
  pose proof (N x (or_introl eq_refl)) as Nx.
  destruct (H x (or_introl eq_refl)) as [Hx | Hx]; rewrite Hx in *;
    destruct (p x), (q x); simpl; try lia; exfalso; auto.
Qed.

(** X2.  The split into before-rows and after-rows loses no gate row: a row
    is a gate row exactly when it is in one of the two lists.  A row that is
    in both names both phases in its event; when no event does, the two lists
    partition the gate rows, and [gate_ops_memory] has at most half as many
    rows as there are gate rows. *)
Theorem gate_ops_split (df : table) :
  (forall r, In r (gate_ops df) <->
             In r (gate_ops_before df) \/ In r (gate_ops_after df)) /\
  (forall r, In r (gate_ops_before df) -> In r (gate_ops_after df) ->
             substring_of "Before" (event r) /\ substring_of "After" (event r)) /\
  (List.length (gate_ops df) <=
   List.length (gate_ops_before df) + List.length (gate_ops_after df))%nat /\
  ((forall r, In r (gate_ops df) -> substring_of "Before" (event r) ->
              substring_of "After" (event r) -> False) ->
   (List.length (gate_ops_before df) + List.length (gate_ops_after df) =
    List.length (gate_ops df))%nat /\
   (2 * min_ops df <= List.length (gate_ops df))%nat).
Proof.
  assert (C : forall x, In x (gate_ops df) ->
            str_contains pat_before (event x) = true \/
            str_contains pat_after (event x) = true).
  { intros x Hx. unfold gate_ops in Hx. apply select_In in Hx.
    apply gate_event_phase, Hx. }
  split; [|split; [|split]].
  - intros r. unfold gate_ops_before, gate_ops_after. rewrite !select_In. split.
    + intros H. destruct (C r H); [left | right]; auto.
    + intros [(H & _) | (H & _)]; exact H.
  - intros r Hb Ha. unfold gate_ops_before, gate_ops_after in *.
    apply select_In in Hb, Ha. unfold str_contains, pat_before, pat_after in *.
    rewrite search_lit in *. tauto.
  - unfold gate_ops_before, gate_ops_after, select. apply filter_cover. exact C.
  - intros N.
    assert (P : (List.length (gate_ops_before df) + List.length (gate_ops_after df) =
                 List.length (gate_ops df))%nat).
    { unfold gate_ops_before, gate_ops_after, select.
      apply filter_partition; [exact C|].
      intros x Hx Hb Ha. unfold str_contains, pat_before, pat_after in *.
      rewrite search_lit in *. exact (N x Hx Hb Ha). }
    split; [exact P|]. unfold min_ops. lia.
Qed.

Lemma gate_ops_split_witness :
  (List.length (gate_ops_before gate_log) + List.length (gate_ops_after gate_log) =
   List.length (gate_ops gate_log))%nat /\
  (2 * min_ops gate_log <= List.length (gate_ops gate_log))%nat.
Proof.
  destruct (gate_ops_split gate_log) as (_ & _ & _ & H).
  apply H. intros r Hr Hb Ha.
  apply search_lit in Hb, Ha. simpl in Hr.
  repeat (destruct Hr as [<- | Hr]; [vm_compute in Hb, Ha; discriminate|]).
  destruct Hr.
Defined.

(* ================================================================== *)
(** * More on the gate-operation frame *)

Lemma wrap64_range (z : Z) : in_int64 (wrap64 z).
Proof.
  unfold in_int64, int64_min, int64_max, wrap64.
  pose proof (Z.mod_pos_bound (z + 2 ^ 63) (2 ^ 64) ltac:(lia)). lia.
Qed.

(* ================================================================== *)
(** * The operation summary *)

Lemma to_uint_not_nil (n : nat) : Nat.to_uint n <> Decimal.Nil.
Proof.
  intros H. pose proof (Unsigned.of_to n) as E. rewrite H in E.
  simpl in E. subst n. discriminate H.
Qed.

Lemma decimal_inj (n m : nat) : decimal n = decimal m -> n = m.
Proof.
  unfold decimal. intros H.
  pose proof (NilZero.usu _ (to_uint_not_nil n)) as Hn.
  pose proof (NilZero.usu _ (to_uint_not_nil m)) as Hm.
  rewrite H in Hn. rewrite Hn in Hm. inversion Hm.
  now apply Unsigned.to_uint_inj.
Qed.

Lemma op_rows_from_length (i : nat) (g : list gate_op) :
  List.length (op_rows_from i g) = List.length g.
Proof. revert i. induction g as [|o g IH]; intros i; simpl; auto. Qed.

Lemma op_rows_from_nth (i k : nat) (g : list gate_op) (o : gate_op) :
  nth_error g k = Some o ->
  nth_error (op_rows_from i g) k = Some (op_row_of (i + k) o).
Proof.
  revert i k. induction g as [|o' g IH]; intros i [|k] H; simpl in *;
    try discriminate.
  - inversion H. now rewrite Nat.add_0_r.
  - rewrite (IH (S i) k H). do 2 f_equal. lia.
Qed.

Lemma op_rows_from_labels (i : nat) (g : list gate_op) :
  map op_label (op_rows_from i g) =
  map (fun k => ("Gate Op #" ++ decimal (k + 1))%string) (seq i (List.length g)).
Proof.
  revert i. induction g as [|o g IH]; intros i; simpl; [reflexivity|].
  now rewrite IH.
Qed.

(* ================================================================== *)

Lemma average_row_cell (g : list gate_op) (col : gate_op -> Z)
    (cell : op_row -> float64) :
  In (col, cell) summary_columns -> cell (average_row g) = mean (map col g).
Proof.
  unfold summary_columns. simpl.
  intros H. repeat (destruct H as [H | H]; [inversion H; reflexivity|]).
  destruct H.
Qed.

(** X4.  The operation summary has one row per gate operation followed by
    the ["Average"] row: row [i] (from 0) is labelled ["Gate Op #<i+1>"] and
    holds the [float64] values of operation [i], and no two rows share a
    label.  The last row is NaN throughout for an empty frame; otherwise a
    column of non-negative values that add up to less than [2^53] has the
    mean [total / count] in it. *)
Theorem operation_summary_rows (g : list gate_op) :
  List.length (operation_summary g) = S (List.length g) /\
  (forall i o, nth_error g i = Some o ->
     exists row,
       nth_error (operation_summary g) i = Some row /\
       op_label row = ("Gate Op #" ++ decimal (i + 1))%string /\
       op_free_heap_before row = of_int64 (free_heap_before o) /\
       op_free_heap_after row = of_int64 (free_heap_after o) /\
       op_memory_used row = of_int64 (memory_used o) /\
       op_allocated_before row = of_int64 (allocated_before o) /\
       op_allocated_after row = of_int64 (allocated_after o)) /\
  (exists avg,
     nth_error (operation_summary g) (List.length g) = Some avg /\
     op_label avg = "Average" /\
     forall col cell, In (col, cell) summary_columns ->
       (g = [] -> cell avg = nan) /\
       (g <> [] -> Forall (fun x => 0 <= x) (map col g) ->
        total (map col g) < 2 ^ 53 ->
        cell avg = fdiv (of_int64 (total (map col g)))
                        (of_int64 (Z.of_nat (List.length g))))) /\
  NoDup (map op_label (operation_summary g)).
Proof.
  unfold operation_summary. split; [|split; [|split]].
  - rewrite length_app, op_rows_from_length. simpl. lia.
  - intros i o Hi. exists (op_row_of i o). split.
    + rewrite nth_error_app1
        by (rewrite op_rows_from_length; apply nth_error_Some; congruence).
      apply (op_rows_from_nth 0 i g Hi).
    + repeat split.
  - exists (average_row g). split; [|split; [reflexivity|]].
    + rewrite nth_error_app2 by (rewrite op_rows_from_length; lia).
      rewrite op_rows_from_length, Nat.sub_diag. reflexivity.
    + intros col cell Hc. rewrite (average_row_cell g Hc). split.
      * intros ->. reflexivity.
      * intros Hne Hpos Ht.
        rewrite mean_total;
          [now rewrite length_map
          | intros E; apply map_eq_nil in E; contradiction
          | assumption | assumption].
  - rewrite map_app, op_rows_from_labels. simpl.
    apply NoDup_app.
    + apply Injective_map_NoDup; [|apply seq_NoDup].
      intros a b H. simpl in H. inversion H as [H'].
      apply decimal_inj in H'. lia.
    + repeat constructor. intros [].
    + intros l Hl [<- | []]. apply in_map_iff in Hl.
      destruct Hl as (k & Hk & _). discriminate Hk.
Qed.

Lemma operation_summary_rows_witness :
  exists row avg,
    nth_error (operation_summary
                 [mkGateOp 1 100 90 5 7 10 2; mkGateOp 2 300 290 5 7 10 2]) 1
      = Some row /\
    op_label row = "Gate Op #2" /\
    nth_error (operation_summary
                 [mkGateOp 1 100 90 5 7 10 2; mkGateOp 2 300 290 5 7 10 2]) 2
      = Some avg /\
    op_free_heap_before avg = fdiv (of_int64 400) (of_int64 2).
Proof.
  destruct (operation_summary_rows
              [mkGateOp 1 100 90 5 7 10 2; mkGateOp 2 300 290 5 7 10 2])
    as (_ & H & (avg & Ha & _ & Hc) & _).
  destruct (H 1%nat (mkGateOp 2 300 290 5 7 10 2) eq_refl) as (row & Hn & Hl & _).
  exists row, avg. split; [exact Hn|]. split; [exact Hl|]. split; [exact Ha|].
  destruct (Hc free_heap_before op_free_heap_before) as (_ & Hm); [simpl; tauto|].
  apply Hm; [discriminate | | simpl; lia].
  simpl. repeat (apply Forall_cons; [lia|]). apply Forall_nil.
Defined.

(* ================================================================== *)
(** * The guarded lookups of the fragmentation summary *)

Lemma stage_rows_first (label : string) (df : table) (r : row) :
  first_row label df r -> stage_rows label df = [stage_of_row r].
Proof.
  intros Hr. unfold stage_rows.
  destruct (with_event label df) as [|r' rest] eqn:E.
  - apply with_event_nil in E. destruct Hr as (pre & post & -> & Hl & _).
    unfold has_event in E. rewrite map_app, existsb_app in E. simpl in E.
    rewrite Hl, String.eqb_refl, orb_true_r in E. discriminate.
  - apply with_event_cons in E. now rewrite (first_row_unique E Hr).
Qed.

Lemma stage_rows_absent (label : string) (df : table) :
  has_event label df = false -> stage_rows label df = [].
Proof.
  intros H. apply with_event_nil in H. unfold stage_rows. now rewrite H.
Qed.

Lemma stage_rows_length (label : string) (df : table) :
  (List.length (stage_rows label df) <= 1)%nat.
Proof. unfold stage_rows. destruct (with_event label df); simpl; lia. Qed.

Lemma gate_ops_avg_raises (df : table) (e : exn) :
  gate_ops_avg df = Raise e -> e = ZeroDivisionError.
Proof.
  unfold gate_ops_avg, py_div.
  destruct (mean (map free_heap (gate_ops df))); cbn [rbind];
    intros H; now inversion H.
Qed.

Lemma init_stages_first (label : string) (df : table) (r : row) :
  In label stage_labels -> first_row label df r ->
  In (stage_of_row r) (init_stages df).
Proof.
  intros Hl Hr. unfold init_stages. rewrite !in_app_iff.
  unfold stage_labels in Hl. simpl in Hl.
  destruct Hl as [<- | [<- | [<- | []]]]; rewrite (stage_rows_first Hr);
    simpl; tauto.
Qed.

Lemma init_stages_absent (label : string) (df : table) (st : frag_stage) :
  has_event label df = false -> In st (init_stages df) -> stage st <> label.
Proof.
  intros Habs Hst E. unfold init_stages in Hst. rewrite !in_app_iff in Hst.
  destruct Hst as [H | [H | H]]; pose proof (stage_rows_label _ _ _ H) as L;
    rewrite <- E, L in Habs;
    rewrite (@stage_rows_absent _ df Habs) in H; destruct H.
Qed.

Lemma init_stages_length (df : table) : (List.length (init_stages df) <= 3)%nat.
Proof.
  unfold init_stages. rewrite !length_app.
  pose proof (stage_rows_length "Before WiFi init" df).
  pose proof (stage_rows_length "After WiFi init" df).
  pose proof (stage_rows_length "After MQTT init" df). lia.
Qed.

(** X5.  On a log of byte counts, the lookups of the fragmentation summary
    are guarded and never raise: without gate rows the summary is built for
    every such log, the empty one included.  With gate rows its one failure is [ZeroDivisionError], in
    the division of the two means, as when every gate row reports an empty
    heap.  Once built it has at most four rows; for each of the labels
    ["Before WiFi init"], ["After WiFi init"], ["After MQTT init"] that
    occurs it holds the free heap, largest free block and fragmentation
    percentage of the first row with that label, as integers without gate
    rows and as [float64] values with them, and a label that does not occur
    contributes no row. *)
Theorem frag_summary_stages (df : table) :
  valid_table df ->
  (gate_ops df = [] -> exists rows, frag_summary df = OK rows) /\
  (forall e, frag_summary df = Raise e ->
     e = ZeroDivisionError /\ gate_ops df <> []) /\
  (gate_ops df <> [] -> (forall r, In r (gate_ops df) -> free_heap r = 0) ->
   Z.of_nat (List.length (gate_ops df)) < 2 ^ 53 ->
   frag_summary df = Raise ZeroDivisionError) /\
  (forall rows, frag_summary df = OK rows ->
     (List.length rows <= 4)%nat /\
     (forall label r, In label stage_labels -> first_row label df r ->
        exists st,
          In st rows /\ stage st = label /\
          stage_fragmentation_index st = fragmentation_percent r /\
          (gate_ops df = [] ->
           stage_free_heap st = Int (free_heap r) /\
           stage_largest_free_block st = Int (largest_free_block r)) /\
          (gate_ops df <> [] ->
           stage_free_heap st = Float (of_int64 (free_heap r)) /\
           stage_largest_free_block st = Float (of_int64 (largest_free_block r)))) /\
     (forall label, In label stage_labels -> has_event label df = false ->
        forall st, In st rows -> stage st <> label)).
Proof.
  intros _. destruct (gate_ops df) as [|g0 g] eqn:G.
  - pose proof (@frag_summary_no_gate df G) as E.
    split; [intros _; eauto|]. split; [intros e He; congruence|].
    split; [intros H; contradiction|].
    intros rows Hrows. rewrite E in Hrows. inversion Hrows; subst rows.
    split; [pose proof (init_stages_length df); lia|]. split.
    + intros label r Hl Hr. exists (stage_of_row r).
      split; [now apply init_stages_first with (label := label)|].
      split; [destruct Hr as (_ & _ & _ & L & _); exact L|].
      split; [reflexivity|]. split; [intros _; split; reflexivity|].
      intros H; contradiction.
    + intros label _ Habs st Hst. now apply init_stages_absent with (df := df).
  - assert (Hne : gate_ops df <> []) by (rewrite G; discriminate).
    rewrite <- G.
    split; [intros H; contradiction|]. split; [|split].
    + intros e He. split; [|exact Hne].
      destruct (gate_ops_avg df) as [avg|e'] eqn:A.
      * rewrite (@frag_summary_gate df avg Hne A) in He. discriminate He.
      * rewrite (@frag_summary_raises df e' Hne A) in He. inversion He; subst e'.
        now apply gate_ops_avg_raises with (df := df).
    + intros _ Hz Hn. apply frag_summary_raises; [exact Hne|].
      now apply gate_ops_avg_zero.
    + intros rows Hrows.
      destruct (gate_ops_avg df) as [avg|e'] eqn:A.
      2:{ rewrite (@frag_summary_raises df e' Hne A) in Hrows. discriminate Hrows. }
      rewrite (@frag_summary_gate df avg Hne A) in Hrows. inversion Hrows; subst rows.
      assert (Savg : stage avg = "During Operations").
      { unfold gate_ops_avg in A. destruct (py_div _ _); [|discriminate A].
        cbn [rbind] in A. inversion A. reflexivity. }
      split; [|split].
      * rewrite length_app, length_map. pose proof (init_stages_length df).
        simpl. lia.
      * intros label r Hl Hr. exists (as_float_stage (stage_of_row r)).
        split; [apply in_app_iff; left; apply in_map;
                now apply init_stages_first with (label := label)|].
        split; [destruct Hr as (_ & _ & _ & L & _); exact L|].
        split; [reflexivity|]. split; [intros H; contradiction|].
        intros _. split; reflexivity.
      * intros label Hl Habs st Hst E. apply in_app_iff in Hst.
        destruct Hst as [Hst | [<- | []]].
        -- apply in_map_iff in Hst. destruct Hst as (x & <- & Hx).
           exact (@init_stages_absent label df x Habs Hx E).
        -- rewrite Savg in E. subst label.
           unfold stage_labels in Hl. simpl in Hl.
           repeat (destruct Hl as [Hl | Hl]; [discriminate Hl|]). destruct Hl.
Qed.

Lemma frag_summary_stages_witness :
  (exists rows st,
     frag_summary boot_log = OK rows /\ In st rows /\
     stage st = "After MQTT init" /\ stage_free_heap st = Int 90000) /\
  frag_summary empty_heap_log = Raise ZeroDivisionError.
Proof.
  split.
  - destruct (@frag_summary_stages boot_log) as (H0 & _ & _ & H).
    { unfold valid_table, boot_log, valid_row, byte_count, int64_max.
      repeat constructor; simpl; lia. }
    destruct (H0 eq_refl) as (rows & E).
    destruct (H rows E) as (_ & H1 & _).
    destruct (H1 "After MQTT init" (sample "After MQTT init" 90000 20000 70000))
      as (st & Hin & Hs & _ & Hf & _).
    + simpl. tauto.
    + exists (firstn 5 boot_log), []. repeat split.
      intros x Hx. simpl in Hx.
      repeat (destruct Hx as [<- | Hx]; [discriminate|]). destruct Hx.
    + exists rows, st. split; [exact E|]. split; [exact Hin|]. split; [exact Hs|].
      apply Hf. reflexivity.
  - destruct (@frag_summary_stages empty_heap_log) as (_ & _ & H & _).
    { unfold valid_table, empty_heap_log, valid_row, byte_count, int64_max.
      repeat constructor; simpl; lia. }
    apply H.
    + vm_compute. discriminate.
    + intros r Hr. vm_compute in Hr.
      repeat (destruct Hr as [<- | Hr]; [reflexivity|]). destruct Hr.
    + vm_compute. reflexivity.
Defined.

(* ================================================================== *)
(** * Division by zero *)

Lemma of_int64_nonzero (z : Z) :
  z <> 0 -> in_int64 z ->
  exists m e, of_int64 z = S754_finite (z <? 0) m e.
Proof.
  unfold in_int64, int64_min, int64_max. intros Hz Hr.
  destruct z as [|p|p]; [contradiction| |].
  - destruct (@of_int64_pos (Zpos p)) as (m & e & E & _);
      [unfold int64_max; lia|]. now exists m, e.
  - unfold of_int64, binary_normalize.
    pose proof (digits2_pos_bounds p) as B.
    assert (D : 1 <= Zpos (digits2_pos p) <= 64).
    { split; [lia|].
      destruct (Z.le_gt_cases (Zpos (digits2_pos p)) 64) as [L | G]; [exact L|].
      assert (2 ^ 64 <= 2 ^ (Zpos (digits2_pos p) - 1))
        by (apply Z.pow_le_mono_r; lia).
      lia. }
    destruct (@binary_round_normal true p 0) as (m & e & E & _); try lia.
    now exists m, e.
Qed.

Lemma pct_of_zero_base (d : Z) :
  in_int64 d -> is_finite (pct_of d 0) = false.
Proof.
  intros Hd. unfold pct_of. change (of_int64 0) with (S754_zero false).
  destruct (Z.eq_dec d 0) as [-> | Hz]; [reflexivity|].
  destruct (of_int64_nonzero Hz Hd) as (m & e & ->).
  rewrite of_int64_100. destruct (d <? 0); reflexivity.
Qed.

(** X6.  The initialization summary is built exactly when the six labels
    occur, whatever the values and the order of the rows, and its only
    failure is [IndexError]; a free heap of 0 at ["Before WiFi init"] raises
    nothing: every percentage of the summary is then NaN or infinite. *)
Theorem init_summary_built (df : table) :
  ((exists s, init_summary df = OK s) <->
   forall label, In label init_labels -> has_event label df = true) /\
  (forall e, init_summary df = Raise e -> e = IndexError) /\
  (forall s, init_summary df = OK s ->
     first_free_heap "Before WiFi init" df = OK 0 ->
     forall r, In r s -> is_finite (pct_of_initial r) = false).
Proof.
  split; [|split].
  - split.
    + intros (s & Hs).
      destruct (init_summary_cases df) as [(s' & _ & Hall) | (E & _)];
        [exact Hall | congruence].
    + apply init_summary_present.
  - intros e He.
    destruct (init_summary_cases df) as [(s' & E & _) | (E & _)]; congruence.
  - intros s Hs Hb r Hr. apply init_summary_inv in Hs.
    destruct Hs as (b1 & b2 & b3 & a1 & a2 & a3 & B1 & _ & _ & _ & _ & _ & ->).
    rewrite B1 in Hb. inversion Hb; subst b1.
    apply init_table_In in Hr. destruct Hr as (Hd & Hp & _).
    rewrite Hp, Hd. apply pct_of_zero_base. apply wrap64_range.
Qed.

Lemma init_summary_built_witness :
  exists s r,
    init_summary (sample "Before WiFi init" 0 0 0 :: boot_log) = OK s /\
    In r s /\ is_finite (pct_of_initial r) = false.
Proof.
  destruct (init_summary (sample "Before WiFi init" 0 0 0 :: boot_log))
    as [s|] eqn:E; [|discriminate E].
  destruct s as [|r s']; [vm_compute in E; discriminate E|].
  exists (r :: s'), r. split; [reflexivity|]. split; [now left|].
  destruct (init_summary_built (sample "Before WiFi init" 0 0 0 :: boot_log))
    as (_ & _ & H).
  apply (H (r :: s') E); [reflexivity | now left].
Defined.

(** X7.  A row with [free_heap = 0] raises nothing in the fragmentation
    column: the percentage is NaN when [largest_free_block] is 0 too, and
    minus infinity when it is positive. *)
Theorem fragmentation_zero_heap (r : row) :
  free_heap r = 0 -> 0 <= largest_free_block r <= int64_max ->
  is_finite (fragmentation_percent r) = false /\
  (largest_free_block r = 0 -> fragmentation_percent r = nan) /\
  (0 < largest_free_block r -> fragmentation_percent r = S754_infinity true).
Proof.
  intros Hf Hl. unfold fragmentation_percent, fragmentation. rewrite Hf.
  change (of_int64 0) with (S754_zero false).
  destruct (Z.eq_dec (largest_free_block r) 0) as [-> | Hz].
  - split; [reflexivity|]. split; [reflexivity | lia].
  - destruct (@of_int64_pos (largest_free_block r) ltac:(lia)) as (m & e & -> & _).
    split; [reflexivity|]. split; [contradiction | reflexivity].
Qed.

Lemma fragmentation_zero_heap_witness :
  fragmentation_percent (sample "boot" 0 100 0) = nan /\
  fragmentation_percent (sample "boot" 0 100 8) = S754_infinity true.
Proof.
  split.
  - apply (@fragmentation_zero_heap (sample "boot" 0 100 0));
      [reflexivity | unfold int64_max; simpl; lia | reflexivity].
  - apply (@fragmentation_zero_heap (sample "boot" 0 100 8));
      [reflexivity | unfold int64_max; simpl; lia | simpl; lia].
Defined.

(** ** A block as large as the heap *)

Lemma new_location_0 (n : Z) : new_location n 0 = loc_Exact.
Proof.
  unfold new_location, new_location_even, new_location_odd.
  destruct (Z.even n); reflexivity.
Qed.

Lemma fdiv_self (m : positive) (e : Z) :
  normal_mantissa m -> -400 <= e <= 400 ->
  fdiv (S754_finite false m e) (S754_finite false m e) = of_int64 1.
Proof.
  intros N He. unfold normal_mantissa in N.
  unfold fdiv, SFdiv, SFdiv_core_binary.
  rewrite (@Zdigits2_unique (Zpos m) 53) by lia.
  rewrite fexp_normal by lia.
  replace (Z.min (53 + e - (53 + e) - 53) (e - e)) with (-53) by lia.
  replace (e - e - -53) with 53 by lia.
  cbv iota. rewrite Z.shiftl_mul_pow2 by lia.
  pose proof (Z_div_mod (Zpos m * 2 ^ 53) (Zpos m) ltac:(lia)) as DM.
  destruct (Z.div_eucl (Zpos m * 2 ^ 53) (Zpos m)) as [q r].
  destruct DM as (DM & Hr). cbn [xorb].
  assert (Hq : q = 2 ^ 53 /\ r = 0).
  { destruct (Z.lt_trichotomy q (2 ^ 53)) as [L | [E | G]].
    - exfalso. assert (Zpos m * (q + 1) <= Zpos m * 2 ^ 53)
        by (apply Z.mul_le_mono_nonneg_l; lia). lia.
    - split; [exact E | subst q; lia].
    - exfalso. assert (Zpos m * (2 ^ 53 + 1) <= Zpos m * q)
        by (apply Z.mul_le_mono_nonneg_l; lia). lia. }
  destruct Hq as (-> & ->). rewrite new_location_0.
  vm_compute. reflexivity.
Qed.

(** X8.  When the largest free block is the whole free heap, the
    fragmentation percentage is exactly [0.0]. *)
Theorem fragmentation_none (r : row) :
  0 < free_heap r <= int64_max -> largest_free_block r = free_heap r ->
  fragmentation_percent r = of_int64 0.
Proof.
  intros Hf Hl. unfold fragmentation_percent, fragmentation. rewrite Hl.
  destruct (of_int64_pos Hf) as (m & e & -> & N & He & _).
  rewrite fdiv_self by (try assumption; lia).
  vm_compute. reflexivity.
Qed.

Lemma fragmentation_none_witness :
  fragmentation_percent (sample "After close entry gate" 300 5 300) = of_int64 0.
Proof.
  apply (@fragmentation_none (sample "After close entry gate" 300 5 300));
    [unfold int64_max; simpl; lia | reflexivity].
Defined.
